(** * Cyclops: a shallow embedding of [cyclops.c]

    The development follows the layout of the C file: the calendar
    ([parse_date], [is_leap_year], [days_in_month], [increment_date],
    [compare_dates]), the commit generator ([generate_commit_message],
    [create_commit]), the repository set-up ([init_git_repo]) and the
    driver ([main]).

    Conventions.
    - A C [int] is a [Z].  All the values the program computes from
      accepted arguments stay far inside the 32-bit range (years up to
      2101, at most 50 commits on each of fewer than 75000 days), so no
      wrap-around occurs on the paths studied here.
    - [%] of C is [Z.rem] (truncated division).
    - A C truth value (an [int] tested against zero) is a [bool].
    - The library generator [rand], the calls to [system], [fopen] and
      [stat] are modelled by an explicit world that is threaded through
      the effectful functions. *)

From Stdlib Require Import ZArith List String Ascii Bool Lia Permutation.
Import ListNotations.

Open Scope Z_scope.

(** ** The C library readers used by the program

    [sscanf] with the format ["%d-%d-%d"] and [atoi].  A [%d] directive
    skips white space, reads an optional sign and then a non-empty
    maximal run of decimal digits; a literal [-] of the format must match
    the next input character.  The digits are converted as the C library
    of the platform does (glibc, 64-bit [long]): [strtol] saturates at
    [LONG_MIN] and [LONG_MAX], and the [int] that is stored or returned
    keeps the low 32 bits of that [long], in two's complement.  So
    ["4294967297"] is read as 1. *)

Module Scan.

Definition isspace (c : ascii) : bool :=
  let n := nat_of_ascii c in
  ((n =? 32) || ((9 <=? n) && (n <=? 13)))%nat.

Definition isdigit (c : ascii) : bool :=
  let n := nat_of_ascii c in
  ((48 <=? n) && (n <=? 57))%nat.

Definition digit_value (c : ascii) : Z := Z.of_nat (nat_of_ascii c) - 48.

Fixpoint skip_spaces (s : string) : string :=
  match s with
  | String c s' => if isspace c then skip_spaces s' else s
  | EmptyString => s
  end.

Fixpoint scan_digits (acc : Z) (s : string) : Z * string :=
  match s with
  | String c s' =>
      if isdigit c then scan_digits (10 * acc + digit_value c) s' else (acc, s)
  | EmptyString => (acc, s)
  end.

Definition scan_sign (s : string) : bool * string :=
  match s with
  | String "-"%char s' => (true, s')
  | String "+"%char s' => (false, s')
  | _ => (false, s)
  end.

Definition LONG_MIN : Z := - 2 ^ 63.
Definition LONG_MAX : Z := 2 ^ 63 - 1.

(** The value [strtol] returns for the number [v] that is written. *)
Definition strtol_clamp (v : Z) : Z := Z.max LONG_MIN (Z.min LONG_MAX v).

(** The conversion of a [long] to [int]: the low 32 bits, signed. *)
Definition to_int (v : Z) : Z := (v + 2 ^ 31) mod 2 ^ 32 - 2 ^ 31.

(** One [%d] directive: the [int] that is stored and the rest of the
    input, or [None] on a matching failure. *)
Definition scan_int (s : string) : option (Z * string) :=
  let (neg, s1) := scan_sign (skip_spaces s) in
  match s1 with
  | String c _ =>
      if isdigit c then
        let (v, rest) := scan_digits 0 s1 in
        Some (to_int (strtol_clamp (if neg then - v else v)), rest)
      else None
  | EmptyString => None
  end.

(** A literal character of the format. *)
Definition match_char (c : ascii) (s : string) : option string :=
  match s with
  | String c' s' => if Ascii.eqb c c' then Some s' else None
  | EmptyString => None
  end.

(** [sscanf(s, "%d-%d-%d", &a, &b, &c)]: the values stored, in order.
    The C return value is their number (or [EOF] when the input ends
    before the first conversion, which is also different from 3). *)
Definition sscanf_d_d_d (s : string) : list Z :=
  match scan_int s with
  | None => []
  | Some (a, s1) =>
      match match_char "-" s1 with
      | None => [a]
      | Some s2 =>
          match scan_int s2 with
          | None => [a]
          | Some (b, s3) =>
              match match_char "-" s3 with
              | None => [a; b]
              | Some s4 =>
                  match scan_int s4 with
                  | None => [a; b]
                  | Some (c, _) => [a; b; c]
                  end
              end
          end
      end
  end.

(** [atoi]: the leading integer of the string, 0 when there is none. *)
Definition atoi (s : string) : Z :=
  match scan_int s with
  | Some (v, _) => v
  | None => 0
  end.

(** The shape [YYYY-MM-DD] in the words of the specification: four
    digits, a dash, two digits, a dash, two digits, and nothing else. *)
Definition iso_shape (s : string) : bool :=
  match s with
  | String y1 (String y2 (String y3 (String y4 (String a
      (String m1 (String m2 (String b (String d1 (String d2
        EmptyString))))))))) =>
      isdigit y1 && isdigit y2 && isdigit y3 && isdigit y4 &&
      Ascii.eqb a "-" && isdigit m1 && isdigit m2 &&
      Ascii.eqb b "-" && isdigit d1 && isdigit d2
  | _ => false
  end.

(** The input does not go on with a digit. *)
Definition no_leading_digit (s : string) : Prop :=
  match s with
  | String c _ => isdigit c = false
  | EmptyString => True
  end.

(** The number written by a run of digit characters. *)
Definition number_of (cs : list ascii) : Z :=
  fold_left (fun acc c => 10 * acc + digit_value c) cs 0.

(** What a [%d] directive accepts, written out: white space, at most one
    sign, and a non-empty run of digits. *)
Inductive Sign : Type := NoSign | Plus | Minus.

Definition sign_text (g : Sign) : string :=
  match g with
  | NoSign => ""
  | Plus => "+"
  | Minus => "-"
  end.

Definition int_text (w : list ascii) (g : Sign) (ds : list ascii) : string :=
  (string_of_list_ascii w ++ sign_text g ++ string_of_list_ascii ds)%string.

Definition decimal_integer (w : list ascii) (g : Sign) (ds : list ascii)
  : Prop :=
  Forall (fun c => isspace c = true) w /\
  ds <> [] /\ Forall (fun c => isdigit c = true) ds.

(** The [int] such a text denotes. *)
Definition int_value (g : Sign) (ds : list ascii) : Z :=
  to_int (strtol_clamp
            (match g with
             | Minus => - number_of ds
             | _ => number_of ds
             end)).

(** The string starts with three such integers separated by [-]; the
    third is not followed by a digit, and what follows it is free. *)
Definition reads_three_integers (s : string) (y m d : Z) : Prop :=
  exists w1 g1 ds1 w2 g2 ds2 w3 g3 ds3 rest,
    s = (int_text w1 g1 ds1 ++ "-" ++ int_text w2 g2 ds2 ++ "-" ++
         int_text w3 g3 ds3 ++ rest)%string /\
    decimal_integer w1 g1 ds1 /\ decimal_integer w2 g2 ds2 /\
    decimal_integer w3 g3 ds3 /\ no_leading_digit rest /\
    y = int_value g1 ds1 /\ m = int_value g2 ds2 /\ d = int_value g3 ds3.

End Scan.

(** ** Calendar *)

Module Calendar.

(** [typedef struct { int year; int month; int day; } Date;] *)
Record Date : Type := mkDate { year : Z; month : Z; day : Z }.

(** [is_leap_year]: the C expression
    [(year % 4 == 0 && year % 100 != 0) || (year % 400 == 0)]. *)
Definition is_leap_year (y : Z) : bool :=
  ((Z.rem y 4 =? 0) && negb (Z.rem y 100 =? 0)) || (Z.rem y 400 =? 0).

(** The local table of [days_in_month]. *)
Definition days : list Z := [31; 28; 31; 30; 31; 30; 31; 31; 30; 31; 30; 31].

(** [days_in_month]: reading [days[month - 1]] outside the table is
    undefined in C; the model returns [None] there. *)
Definition days_in_month (m y : Z) : option Z :=
  if (m =? 2) && is_leap_year y then Some 29
  else if (1 <=? m) && (m <=? 12) then nth_error days (Z.to_nat (m - 1))
  else None.

(** [increment_date]: the structure is updated in place in C; here the
    new value is returned. *)
Definition increment_date (d : Date) : option Date :=
  let day1 := day d + 1 in
  match days_in_month (month d) (year d) with
  | None => None
  | Some dim =>
      if day1 >? dim then
        let month1 := month d + 1 in
        if month1 >? 12 then Some (mkDate (year d + 1) 1 1)
        else Some (mkDate (year d) month1 1)
      else Some (mkDate (year d) (month d) day1)
  end.

(** [compare_dates]: -1, 0 or 1. *)
Definition compare_dates (d1 d2 : Date) : Z :=
  if negb (year d1 =? year d2) then
    (if year d1 <? year d2 then -1 else 1)
  else if negb (month d1 =? month d2) then
    (if month d1 <? month d2 then -1 else 1)
  else if negb (day d1 =? day d2) then
    (if day d1 <? day d2 then -1 else 1)
  else 0.

(** The condition of the "basic validation" of [parse_date]: [true]
    when a field is out of bounds. *)
Definition out_of_bounds (d : Date) : bool :=
  (year d <? 1900) || (year d >? 2100) ||
  (month d <? 1) || (month d >? 12) ||
  (day d <? 1) || (day d >? 31).

(** [parse_date]: [Some] date for the C result 1, [None] for 0. *)
Definition parse_date (date_str : string) : option Date :=
  match Scan.sscanf_d_d_d date_str with
  | [y; m; d] =>
      let date := mkDate y m d in
      if out_of_bounds date then None else Some date
  | _ => None
  end.

(** The three fields written in a string of the shape [YYYY-MM-DD]. *)
Definition iso_fields (s : string) : Date :=
  match s with
  | String y1 (String y2 (String y3 (String y4 (String _
      (String m1 (String m2 (String _ (String d1 (String d2 _))))))))) =>
      mkDate (Scan.number_of [y1; y2; y3; y4])
             (Scan.number_of [m1; m2])
             (Scan.number_of [d1; d2])
  | _ => mkDate 0 0 0
  end.

(** [n] applications of [increment_date]. *)
Fixpoint increment_n (n : nat) (d : Date) : option Date :=
  match n with
  | O => Some d
  | S k => match increment_date d with
           | Some d' => increment_n k d'
           | None => None
           end
  end.

(** Predicates used in the statements. *)

(** Month in 1..12 and day in 1..31: what [parse_date] guarantees besides
    the year. *)
Definition flat_date (d : Date) : Prop :=
  1 <= month d <= 12 /\ 1 <= day d <= 31.

(** Day-validity: the day exists in its month. *)
Definition day_valid (d : Date) : Prop :=
  1 <= month d <= 12 /\
  exists dim, days_in_month (month d) (year d) = Some dim /\ 1 <= day d <= dim.

(** The Gregorian rule in the words of the specification. *)
Definition gregorian_leap (y : Z) : Prop :=
  ((4 | y) /\ ~ (100 | y)) \/ (400 | y).

(** Auxiliary: one step and [n] steps of [increment_date] inside a year
    whose leap status is [leap], on the pair (month, day); [None] when
    the step leaves the year or the table. *)
Definition step_in_year (leap : bool) (md : Z * Z) : option (Z * Z) :=
  let (m, d) := md in
  match (if (m =? 2) && leap then Some 29
         else if (1 <=? m) && (m <=? 12)
              then nth_error days (Z.to_nat (m - 1)) else None) with
  | None => None
  | Some dim =>
      if d + 1 >? dim then
        if m + 1 >? 12 then None else Some (m + 1, 1)
      else Some (m, d + 1)
  end.

Fixpoint steps_in_year (leap : bool) (n : nat) (md : Z * Z) : option (Z * Z) :=
  match n with
  | O => Some md
  | S k => match step_in_year leap md with
           | Some md' => steps_in_year leap k md'
           | None => None
           end
  end.

(** Auxiliary: a strictly monotone rank for dates with a month in 1..12
    and a day in 1..31; it bounds the number of iterations of the main
    loop. *)
Definition rank (d : Date) : Z := year d * 372 + month d * 31 + day d.

Definition loop_fuel (current end_date : Date) : nat :=
  S (Z.to_nat (rank end_date - rank current + 1)).

End Calendar.

(** ** The world outside the program

    [rand] is a deterministic generator: its state is the sequence of the
    values it is going to return and a position in it.  The outcome of
    the [k]-th fallible external call ([fopen], [system]) is given by an
    oracle; the commands passed to [system] and the records appended to
    the activity file are logged, newest first. *)

Module World.

Import Calendar.

Record Rng : Type := mkRng { tape : nat -> Z; pos : nat }.

(** The least [RAND_MAX] the C standard allows; every value up to it can
    be returned by any conforming generator. *)
Definition RAND_MAX : Z := 32767.

(** A generator whose values are non-negative, as [rand] promises. *)
Definition rng_ok (g : Rng) : Prop := forall n, 0 <= tape g n.

(** A generator whose next value is [r] (and that repeats it). *)
Definition rng_const (r : Z) : Rng := mkRng (fun _ => r) 0.

(** The commands the program hands to [system]. *)
Inductive Command : Type :=
| GitInit
| GitConfigName
| GitConfigEmail
| GitAdd (file : string)
| GitCommit (date : Date) (hour minute : Z) (message : string).

(** One record of the activity file. *)
Record ActivityLogEntry : Type := mkEntry {
  log_date : Date;
  log_number : Z;
  log_session : Z;
  log_changes : Z
}.

Record State : Type := mkState {
  st_rng : Rng;
  st_git_dir : bool;                 (* does [stat(".git")] succeed? *)
  st_oracle : nat -> bool;           (* outcome of the k-th external call *)
  st_calls : nat;                    (* external calls made so far *)
  st_file : list ActivityLogEntry;   (* the activity file, newest first *)
  st_commands : list (Command * bool)  (* commands run, with their outcome *)
}.

(** Every external call succeeds. *)
Definition all_calls_succeed (st : State) : Prop :=
  forall k, st_oracle st k = true.

(** A fresh world without a repository, in which every external call
    succeeds and [rand] keeps returning [r]. *)
Definition calm_world (r : Z) : State :=
  mkState (rng_const r) false (fun _ => true) 0 [] [].

(** A state monad over the world. *)
Definition M (A : Type) : Type := State -> A * State.

Definition ret {A} (a : A) : M A := fun st => (a, st).

Definition bind {A B} (m : M A) (f : A -> M B) : M B :=
  fun st => let (a, st') := m st in f a st'.

Notation "x <- m ;; k" := (bind m (fun x => k))
  (at level 61, m at next level, right associativity).
Notation "m ;;; k" := (bind m (fun _ => k))
  (at level 61, right associativity).

(** [rand()] *)
Definition rand : M Z := fun st =>
  let g := st_rng st in
  (tape g (pos g),
   mkState (mkRng (tape g) (S (pos g))) (st_git_dir st) (st_oracle st)
           (st_calls st) (st_file st) (st_commands st)).

(** The outcome of the next external call. *)
Definition external : M bool := fun st =>
  (st_oracle st (st_calls st),
   mkState (st_rng st) (st_git_dir st) (st_oracle st)
           (S (st_calls st)) (st_file st) (st_commands st)).

(** [system(cmd) == 0] *)
Definition system (cmd : Command) : M bool := fun st =>
  let (ok, st1) := external st in
  (ok,
   mkState (st_rng st1) (st_git_dir st1) (st_oracle st1)
           (st_calls st1) (st_file st1) ((cmd, ok) :: st_commands st1)).

(** [fopen(DATA_FILE, "a") != NULL] *)
Definition fopen_append : M bool := external.

(** The four [fprintf] calls that write one record, and [fclose]. *)
Definition append_entry (e : ActivityLogEntry) : M unit := fun st =>
  (tt,
   mkState (st_rng st) (st_git_dir st) (st_oracle st)
           (st_calls st) (e :: st_file st) (st_commands st)).

(** [stat(".git", &st) == -1] *)
Definition stat_git_missing : M bool := fun st => (negb (st_git_dir st), st).

(** The state after [n] more values were drawn, [k] more external calls
    were made, and with the given file and command logs. *)
Definition advance (st : State) (n k : nat) (file : list ActivityLogEntry)
    (cmds : list (Command * bool)) : State :=
  mkState (mkRng (tape (st_rng st)) (n + pos (st_rng st)))
          (st_git_dir st) (st_oracle st) (k + st_calls st) file cmds.

(** The [i]-th value the generator returns from state [st] on. *)
Definition draw (st : State) (i : nat) : Z :=
  tape (st_rng st) (i + pos (st_rng st)).

(** Hoare triples on the world. *)
Definition hoare {A} (P : State -> Prop) (m : M A) (Q : A -> State -> Prop)
  : Prop :=
  forall st, P st -> Q (fst (m st)) (snd (m st)).

(** The hour and minute of a [git commit] command are a time of day
    between 8:00 and 21:59. *)
Definition command_time_ok (c : Command * bool) : Prop :=
  match fst c with
  | GitCommit _ hour minute _ => 8 <= hour <= 21 /\ 0 <= minute <= 59
  | _ => True
  end.

(** What the program computes for a record of the activity file. *)
Definition entry_ok (e : ActivityLogEntry) : Prop :=
  30 <= log_session e <= 209 /\ 10 <= log_changes e <= 109.

(** The invariant of a run that started with the commands [cmds0] and
    the records [file0] logged: the generator is well formed, and the
    commands issued and the records written since are within range. *)
Definition run_invariant (cmds0 : list (Command * bool))
    (file0 : list ActivityLogEntry) (st : State) : Prop :=
  rng_ok (st_rng st) /\
  (exists new, st_commands st = new ++ cmds0 /\ Forall command_time_ok new) /\
  (exists new, st_file st = new ++ file0 /\ Forall entry_ok new).

(** The oracle is never changed. *)
Definition keeps_oracle {A} (m : M A) : Prop :=
  forall st, st_oracle (snd (m st)) = st_oracle st.

End World.

(** ** Commit generation and the driver *)

Module Cyclops.

Import Calendar World.

Definition DATA_FILE : string := "cyclops_activity.txt".
Definition MAX_MESSAGE_LENGTH : Z := 256.

Definition messages : list string :=
  [ "Refactor authentication module";
    "Add comprehensive unit tests";
    "Optimize database queries";
    "Fix memory leak in parser";
    "Implement rate limiting middleware";
    "Update API documentation";
    "Add input validation layer";
    "Improve error handling";
    "Optimize build pipeline";
    "Add monitoring metrics";
    "Implement caching strategy";
    "Fix cross-platform compatibility";
    "Add security headers";
    "Optimize image compression";
    "Implement async processing";
    "Add logging framework";
    "Fix race condition bug";
    "Update dependency versions";
    "Add feature toggles";
    "Implement data migration";
    "Add integration tests";
    "Fix CSS responsiveness";
    "Optimize network requests";
    "Add encryption support" ]%string.

(** [generate_commit_message]: [snprintf] keeps at most [max_length - 1]
    characters. *)
Definition generate_commit_message (max_length : Z) : M string :=
  let num_messages := Z.of_nat (List.length messages) in
  r <- rand ;;
  let index := Z.rem r num_messages in
  ret (substring 0 (Z.to_nat (max_length - 1))
         (nth (Z.to_nat index) messages EmptyString)).

(** [create_commit]: [true] for the C result 1. *)
Definition create_commit (date : Date) (commit_number : Z) : M bool :=
  file <- fopen_append ;;
  if negb file then ret false
  else
    r1 <- rand ;;
    r2 <- rand ;;
    append_entry (mkEntry date commit_number
                    (Z.rem r1 180 + 30) (Z.rem r2 100 + 10)) ;;;
    added <- system (GitAdd DATA_FILE) ;;
    if negb added then ret false
    else
      message <- generate_commit_message MAX_MESSAGE_LENGTH ;;
      r3 <- rand ;;
      let hour := Z.rem r3 14 + 8 in
      r4 <- rand ;;
      let minute := Z.rem r4 60 in
      committed <- system (GitCommit date hour minute message) ;;
      if negb committed then ret false else ret true.

(** [init_git_repo]: the results of the two [git config] calls are
    ignored. *)
Definition init_git_repo : M bool :=
  missing <- stat_git_missing ;;
  if missing then
    result <- system GitInit ;;
    if negb result then ret false
    else
      system GitConfigName ;;;
      system GitConfigEmail ;;;
      ret true
  else ret true.

(** What a run leaves behind: the exit code, the two counters of [main]
    when it returns, and the dates at which the body of the main loop was
    entered, oldest first. *)
Record Run : Type := mkRun {
  exit_code : Z;
  days_processed : Z;
  total_commits : Z;
  visited : list Date
}.

(** The result of a computation that runs on fuel: [Undefined] stands for
    a step whose behaviour C leaves undefined. *)
Inductive Outcome (A : Type) : Type :=
| Done (a : A)
| OutOfFuel
| Undefined.
Arguments Done {A} a.
Arguments OutOfFuel {A}.
Arguments Undefined {A}.

(** The inner loop [for (int i = 1; i <= commits_today; i++)]: [k] is the
    number of iterations left, [i] the loop variable; [false] when a
    commit failed. *)
Fixpoint commit_loop (k : nat) (i : Z) (date : Date) : M bool :=
  match k with
  | O => ret true
  | S k' =>
      ok <- create_commit date i ;;
      if negb ok then ret false else commit_loop k' (i + 1) date
  end.

(** The main loop [while (compare_dates(&current_date, &end_date) <= 0)].
    The pause [usleep(5000)] has no effect on the state. *)
Fixpoint day_loop (fuel : nat) (end_date : Date) (max_commits_per_day : Z)
    (current_date : Date) (total days : Z) (seen : list Date)
    : M (Outcome Run) :=
  match fuel with
  | O => ret OutOfFuel
  | S fuel' =>
      if compare_dates current_date end_date <=? 0 then
        r <- rand ;;
        let commits_today := Z.rem r (max_commits_per_day + 1) in
        let seen' := seen ++ [current_date] in
        ok <- (if commits_today >? 0
               then commit_loop (Z.to_nat commits_today) 1 current_date
               else ret true) ;;
        if negb ok then ret (Done (mkRun 1 days total seen'))
        else
          let total' :=
            if commits_today >? 0 then total + commits_today else total in
          match increment_date current_date with
          | None => ret Undefined
          | Some next =>
              day_loop fuel' end_date max_commits_per_day next
                       total' (days + 1) seen'
          end
      else ret (Done (mkRun 0 days total seen))
  end.

Definition exit_early : M (Outcome Run) := ret (Done (mkRun 1 0 0 [])).

(** [main]: [argv] includes the program name; the generator of the
    initial state is the one [srand(time(NULL))] installs. *)
Definition main (fuel : nat) (argv : list string) : M (Outcome Run) :=
  match argv with
  | [_; arg1; arg2; arg3] =>
      match parse_date arg1 with
      | None => exit_early
      | Some start_date =>
          match parse_date arg2 with
          | None => exit_early
          | Some end_date =>
              let max_commits_per_day := Scan.atoi arg3 in
              if (max_commits_per_day <? 1) || (max_commits_per_day >? 50)
              then exit_early
              else if compare_dates start_date end_date >? 0
              then exit_early
              else
                ok <- init_git_repo ;;
                if negb ok then exit_early
                else day_loop fuel end_date max_commits_per_day
                              start_date 0 0 []
          end
      end
  | _ => exit_early
  end.

End Cyclops.

(** ** The calendar range of the specification *)

Module Range.

Import Calendar.

Definition Zseq (start : Z) (len : nat) : list Z :=
  map (fun k => start + Z.of_nat k) (seq 0 len).

(** The civil calendar, written independently of the program: the
    Gregorian leap rule and the lengths of the months (thirty days have
    September, April, June and November; February has 28, or 29 in a leap
    year; the others have 31). *)
Definition leap_year_rule (y : Z) : bool :=
  ((y mod 4 =? 0) && negb (y mod 100 =? 0)) || (y mod 400 =? 0).

Definition month_length (y m : Z) : Z :=
  if m =? 2 then (if leap_year_rule y then 29 else 28)
  else if (m =? 9) || (m =? 4) || (m =? 6) || (m =? 11) then 30
  else 31.

(** A date of the civil calendar. *)
Definition calendar_dayb (d : Date) : bool :=
  (1 <=? month d) && (month d <=? 12) && (1 <=? day d) &&
  (day d <=? month_length (year d) (month d)).

Definition calendar_day (d : Date) : Prop := calendar_dayb d = true.

Definition date_leb (a b : Date) : bool := compare_dates a b <=? 0.

(** Every triple with the year between [y1] and [y2], a month number and
    a day number, in lexicographic order. *)
Definition candidates (y1 y2 : Z) : list Date :=
  flat_map (fun y =>
    flat_map (fun m => map (fun d => mkDate y m d) (Zseq 1 31)) (Zseq 1 12))
    (Zseq y1 (Z.to_nat (y2 - y1 + 1))).

(** The lexicographic order on (year, month, day), written out. *)
Definition lex_le (a b : Date) : Prop :=
  year a < year b \/
  (year a = year b /\
   (month a < month b \/ (month a = month b /\ day a <= day b))).

Definition lex_lt (a b : Date) : Prop :=
  year a < year b \/
  (year a = year b /\
   (month a < month b \/ (month a = month b /\ day a < day b))).

(** The dates the main loop goes through from [cur] until it passes
    [end_date]. *)
Inductive steps_to (end_date : Date) : Date -> list Date -> Prop :=
| steps_stop cur :
    compare_dates cur end_date > 0 -> steps_to end_date cur []
| steps_next cur next l :
    compare_dates cur end_date <= 0 ->
    increment_date cur = Some next ->
    steps_to end_date next l ->
    steps_to end_date cur (cur :: l).

(** The calendar days from [s] to [e] inclusive. *)
Definition calendar_range (s e : Date) : list Date :=
  filter (fun d => calendar_dayb d && date_leb s d && date_leb d e)
         (candidates (year s) (year e)).

End Range.

(** ** The strings the program prints

    [printf] with the directives [%04d] and [%02d]: the decimal digits of
    the value, padded on the left with zeros to the width; a negative
    value prints a minus sign first, which counts in the width. *)

Module Format.

Import Calendar World Cyclops.

Definition MAX_COMMAND_LENGTH : Z := 512.
Definition MAX_DATE_LENGTH : Z := 32.

Definition digit_char (n : Z) : ascii := ascii_of_nat (48 + Z.to_nat n).

(** The decimal digits of [n >= 0], most significant first, in front of
    [acc]; [fuel] bounds the number of digits after the first. *)
Fixpoint digits_of (fuel : nat) (n : Z) (acc : string) : string :=
  let acc' := String (digit_char (n mod 10)) acc in
  match fuel with
  | O => acc'
  | S fuel' => if n <? 10 then acc' else digits_of fuel' (n / 10) acc'
  end.

Definition decimal (n : Z) : string :=
  digits_of (Z.to_nat (Z.log2 n)) n EmptyString.

Fixpoint zeros (k : nat) : string :=
  match k with
  | O => EmptyString
  | S k' => String "0" (zeros k')
  end.

Definition pad0 (width : nat) (s : string) : string :=
  (zeros (width - String.length s) ++ s)%string.

(** [%0<width>d] *)
Definition fmt_0d (width : nat) (v : Z) : string :=
  if v <? 0 then String "-" (pad0 (width - 1) (decimal (- v)))
  else pad0 width (decimal v).

(** ["%04d-%02d-%02d"] on the fields of a date, as in the activity log
    and in the progress lines. *)
Definition format_date (d : Date) : string :=
  (fmt_0d 4 (year d) ++ "-" ++ fmt_0d 2 (month d) ++ "-" ++
   fmt_0d 2 (day d))%string.

(** ["%04d-%02d-%02d %02d:%02d:00"]: the text [create_commit] builds in
    [date_str], before [snprintf] cuts it to the buffer. *)
Definition format_timestamp (d : Date) (hour minute : Z) : string :=
  (format_date d ++ " " ++ fmt_0d 2 hour ++ ":" ++ fmt_0d 2 minute ++
   ":00")%string.

(** [snprintf(buf, size, ...)]: at most [size - 1] characters are kept. *)
Definition snprintf (size : Z) (text : string) : string :=
  substring 0 (Z.to_nat (size - 1)) text.

Definition dquote : string := String (ascii_of_nat 34) EmptyString.

(** The text of a command, before [snprintf] cuts it to the buffer
    [command]; the three commands of [init_git_repo] are literals. *)
Definition command_text (c : Command) : string :=
  match c with
  | GitInit => "git init"
  | GitConfigName =>
      "git config user.name " ++ dquote ++ "Cyclops" ++ dquote ++
      " 2>/dev/null || true"
  | GitConfigEmail =>
      "git config user.email " ++ dquote ++ "cyclops@github.com" ++ dquote ++
      " 2>/dev/null || true"
  | GitAdd file => "git add " ++ file
  | GitCommit d hour minute message =>
      let date_str := snprintf MAX_DATE_LENGTH (format_timestamp d hour minute) in
      "GIT_COMMITTER_DATE=" ++ dquote ++ date_str ++ dquote ++
      " git commit --date=" ++ dquote ++ date_str ++ dquote ++
      " -m " ++ dquote ++ message ++ dquote
  end%string.

(** The string handed to [system]. *)
Definition command_string (c : Command) : string :=
  match c with
  | GitAdd _ | GitCommit _ _ _ _ => snprintf MAX_COMMAND_LENGTH (command_text c)
  | _ => command_text c
  end.

(** Auxiliary checks, run on whole ranges of values. *)
Definition all_digits (s : string) : bool :=
  forallb Scan.isdigit (list_ascii_of_string s).

Definition check_field (width : nat) (v : Z) : bool :=
  let s := fmt_0d width v in
  (String.length s =? width)%nat && all_digits s &&
  (Scan.number_of (list_ascii_of_string s) =? v).

End Format.

(** ** What a run adds to the logs *)

Module Effects.

Import Calendar World.

Definition is_created (c : Command * bool) : bool :=
  match c with
  | (GitCommit _ _ _ _, true) => true
  | _ => false
  end.

(** The number of commits created: the successful [git commit]
    commands. *)
Definition created (cmds : list (Command * bool)) : nat :=
  List.length (filter is_created cmds).

(** A command that must succeed for the run to go on. *)
Definition is_checked (c : Command) : bool :=
  match c with
  | GitInit | GitAdd _ | GitCommit _ _ _ _ => true
  | GitConfigName | GitConfigEmail => false
  end.

Definition checked_ok (c : Command * bool) : Prop :=
  is_checked (fst c) = true -> snd c = true.

(** The date of a [git commit] command lies between [lo] and [hi]. *)
Definition command_date_in (lo hi : Date) (c : Command * bool) : Prop :=
  match fst c with
  | GitCommit d _ _ _ => compare_dates lo d <= 0 /\ compare_dates d hi <= 0
  | _ => True
  end.

Definition entry_date_in (lo hi : Date) (e : ActivityLogEntry) : Prop :=
  compare_dates lo (log_date e) <= 0 /\ compare_dates (log_date e) hi <= 0.

(** The commands and records a computation added, newest first. *)
Definition added (st st' : State) (newc : list (Command * bool))
    (newf : list ActivityLogEntry) : Prop :=
  st_commands st' = newc ++ st_commands st /\
  st_file st' = newf ++ st_file st.

(** Since the logs were [cmds0] and [file0], every command issued
    satisfies [Pc] and every record written satisfies [Pf]. *)
Definition since (Pc : Command * bool -> Prop) (Pf : ActivityLogEntry -> Prop)
    (cmds0 : list (Command * bool)) (file0 : list ActivityLogEntry)
    (st : State) : Prop :=
  (exists newc, st_commands st = newc ++ cmds0 /\ Forall Pc newc) /\
  (exists newf, st_file st = newf ++ file0 /\ Forall Pf newf).

(** The numbers of records in the activity file and of commits created. *)
Definition records (st : State) : nat := List.length (st_file st).
Definition commits (st : State) : nat := created (st_commands st).

(** From [st] to [st'] the file grew by [nr] records and [nc] commits
    were created. *)
Definition grown (st st' : State) (nr nc : nat) : Prop :=
  records st' = (records st + nr)%nat /\ commits st' = (commits st + nc)%nat.

(** The days of the twelve months of a year, added up. *)
Definition year_length (y : Z) : option Z :=
  fold_left (fun acc m =>
               match acc, days_in_month m y with
               | Some a, Some n => Some (a + n)
               | _, _ => None
               end)
            [1; 2; 3; 4; 5; 6; 7; 8; 9; 10; 11; 12] (Some 0).

End Effects.

(** * Properties *)

(** ** Reading dates *)

Module ScanFacts.

Import Scan Calendar.

Lemma scan_digits_run (cs : list ascii) :
  forall acc rest,
    Forall (fun c => isdigit c = true) cs ->
    no_leading_digit rest ->
    scan_digits acc (string_of_list_ascii cs ++ rest) =
    (fold_left (fun a c => 10 * a + digit_value c) cs acc, rest).
Proof.
  induction cs as [| c cs IH]; intros acc rest Hcs Hrest; cbn.
  - destruct rest as [| c r]; cbn in *; [reflexivity |].
    now rewrite Hrest.
  - inversion Hcs as [| ? ? Hc Hcs']; subst.
    rewrite Hc. now apply IH.
Qed.

Lemma isdigit_not_space (c : ascii) : isdigit c = true -> isspace c = false.
Proof.
  unfold isdigit, isspace. intro H.
  apply andb_true_iff in H. destruct H as [H1 H2].
  apply Nat.leb_le in H1. apply Nat.leb_le in H2.
  apply orb_false_iff. split.
  - apply Nat.eqb_neq. lia.
  - apply andb_false_iff. right. apply Nat.leb_gt. lia.
Qed.

Lemma isdigit_not_sign (c : ascii) (s : string) :
  isdigit c = true -> scan_sign (String c s) = (false, String c s).
Proof.
  destruct c as [[] [] [] [] [] [] [] []]; cbn; intro H;
    try discriminate H; reflexivity.
Qed.

Lemma digits_bound (cs : list ascii) :
  Forall (fun c => isdigit c = true) cs ->
  forall acc, 0 <= acc ->
    0 <= fold_left (fun a c => 10 * a + digit_value c) cs acc
      <= (acc + 1) * 10 ^ Z.of_nat (List.length cs) - 1.
Proof.
  induction 1 as [| c cs Hc Hcs IH]; intros acc Hacc; cbn [fold_left List.length].
  - cbn. lia.
  - assert (Hd : 0 <= digit_value c <= 9).
    { unfold isdigit in Hc. unfold digit_value.
      apply andb_true_iff in Hc. destruct Hc as (H1 & H2).
      apply Nat.leb_le in H1. apply Nat.leb_le in H2. lia. }
    specialize (IH (10 * acc + digit_value c) ltac:(lia)).
    rewrite Nat2Z.inj_succ, Z.pow_succ_r by lia.
    assert (Hp : 0 < 10 ^ Z.of_nat (List.length cs))
      by (apply Z.pow_pos_nonneg; lia).
    nia.
Qed.

Lemma to_int_small (v : Z) : - 2 ^ 31 <= v < 2 ^ 31 -> to_int v = v.
Proof.
  intro H. unfold to_int. rewrite Z.mod_small; lia.
Qed.

Lemma strtol_clamp_small (v : Z) : LONG_MIN <= v <= LONG_MAX -> strtol_clamp v = v.
Proof.
  unfold strtol_clamp. lia.
Qed.

(** A number of at most nine digits is stored as it is written. *)
Lemma number_of_small (cs : list ascii) :
  Forall (fun c => isdigit c = true) cs -> (List.length cs <= 9)%nat ->
  to_int (strtol_clamp (number_of cs)) = number_of cs.
Proof.
  intros Hcs Hlen. unfold number_of.
  pose proof (digits_bound cs Hcs 0 ltac:(lia)) as Hb.
  assert (Hp : 10 ^ Z.of_nat (List.length cs) <= 10 ^ 9)
    by (apply Z.pow_le_mono_r; lia).
  change (10 ^ 9) with 1000000000 in Hp.
  rewrite strtol_clamp_small, to_int_small;
    unfold LONG_MIN, LONG_MAX; try reflexivity;
    change (2 ^ 31) with 2147483648; change (2 ^ 63) with 9223372036854775808;
    lia.
Qed.

(** A [%d] directive on a non-empty run of at most nine digits that is
    not followed by a digit reads the number the run writes. *)
Lemma scan_int_run (c : ascii) (cs : list ascii) (rest : string) :
  Forall (fun c => isdigit c = true) (c :: cs) ->
  no_leading_digit rest ->
  (List.length cs <=? 8)%nat = true ->
  scan_int (string_of_list_ascii (c :: cs) ++ rest) =
  Some (number_of (c :: cs), rest).
Proof.
  intros Hcs Hrest Hlen. unfold scan_int.
  assert (Hc : isdigit c = true) by (inversion Hcs; assumption).
  change (string_of_list_ascii (c :: cs) ++ rest)%string
    with (String c (string_of_list_ascii cs ++ rest)).
  cbn [skip_spaces]. rewrite (isdigit_not_space c Hc).
  rewrite (isdigit_not_sign c _ Hc). rewrite Hc.
  change (String c (string_of_list_ascii cs ++ rest))
    with (string_of_list_ascii (c :: cs) ++ rest)%string.
  rewrite (scan_digits_run (c :: cs) 0 rest Hcs Hrest).
  change (fold_left (fun a c0 => 10 * a + digit_value c0) (c :: cs) 0)
    with (number_of (c :: cs)).
  rewrite number_of_small; [reflexivity | exact Hcs |].
  apply Nat.leb_le in Hlen. cbn [List.length]. lia.
Qed.

(** What [parse_date] does on a string of the shape [YYYY-MM-DD]. *)
Lemma parse_date_iso_shape (s : string) :
  iso_shape s = true ->
  parse_date s =
  if out_of_bounds (iso_fields s) then None else Some (iso_fields s).
Proof.
  intro H.
  destruct s as [| y1 [| y2 [| y3 [| y4 [| a [| m1 [| m2 [| b [| d1 [| d2 [| ? ?]]]]]]]]]]];
    try discriminate H.
  cbn [iso_shape] in H. repeat rewrite andb_true_iff in H.
  destruct H as (((((((((Hy1 & Hy2) & Hy3) & Hy4) & Ha) & Hm1) & Hm2) & Hb) & Hd1) & Hd2).
  apply Ascii.eqb_eq in Ha, Hb. subst a b.
  unfold parse_date, sscanf_d_d_d.
  change (String y1 (String y2 (String y3 (String y4 (String "-"
            (String m1 (String m2 (String "-" (String d1 (String d2 ""))))))))))
    with (string_of_list_ascii [y1; y2; y3; y4] ++
          String "-" (String m1 (String m2 (String "-" (String d1 (String d2 ""))))))%string.
  rewrite scan_int_run;
    [| repeat constructor; assumption | reflexivity | reflexivity].
  cbn [match_char]. rewrite Ascii.eqb_refl.
  change (String m1 (String m2 (String "-" (String d1 (String d2 "")))))
    with (string_of_list_ascii [m1; m2] ++
          String "-" (String d1 (String d2 "")))%string.
  rewrite scan_int_run;
    [| repeat constructor; assumption | reflexivity | reflexivity].
  cbn [match_char]. rewrite Ascii.eqb_refl.
  change (String d1 (String d2 ""))
    with (string_of_list_ascii [d1; d2] ++ "")%string.
  rewrite scan_int_run;
    [| repeat constructor; assumption | exact I | reflexivity].
  reflexivity.
Qed.

Lemma out_of_bounds_false (d : Date) :
  out_of_bounds d = false <->
  1900 <= year d <= 2100 /\ 1 <= month d <= 12 /\ 1 <= day d <= 31.
Proof.
  unfold out_of_bounds. repeat rewrite orb_false_iff. lia.
Qed.

Lemma parse_date_bounds (s : string) (d : Date) :
  parse_date s = Some d -> out_of_bounds d = false.
Proof.
  unfold parse_date.
  destruct (sscanf_d_d_d s) as [| y [| m [| dd [| ? ?]]]]; try discriminate.
  destruct (out_of_bounds (mkDate y m dd)) eqn:E; [discriminate |].
  intro H. injection H as <-. exact E.
Qed.

Lemma append_assoc (a b c : string) : ((a ++ b) ++ c = a ++ (b ++ c))%string.
Proof.
  induction a as [| x a IH]; cbn; [reflexivity | now rewrite IH].
Qed.

Lemma skip_spaces_prefix (w : list ascii) (x : string) :
  Forall (fun c => isspace c = true) w ->
  skip_spaces (string_of_list_ascii w ++ x) = skip_spaces x.
Proof.
  induction 1 as [| c w Hc Hw IH]; cbn; [reflexivity |].
  now rewrite Hc.
Qed.

Lemma skip_spaces_split (s : string) :
  exists w, Forall (fun c => isspace c = true) w /\
            s = (string_of_list_ascii w ++ skip_spaces s)%string.
Proof.
  induction s as [| c s (w & Hw & IH)]; cbn [skip_spaces].
  - exists []. split; [constructor | reflexivity].
  - destruct (isspace c) eqn:Hc.
    + exists (c :: w). split; [constructor; assumption |].
      cbn. now rewrite <- IH.
    + exists []. split; [constructor | reflexivity].
Qed.

Lemma scan_digits_split (s : string) :
  forall acc v rest,
    scan_digits acc s = (v, rest) ->
    exists ds, Forall (fun c => isdigit c = true) ds /\
               s = (string_of_list_ascii ds ++ rest)%string /\
               no_leading_digit rest /\
               v = fold_left (fun a c => 10 * a + digit_value c) ds acc.
Proof.
  induction s as [| c s IH]; intros acc v rest H; cbn [scan_digits] in H.
  - injection H as <- <-. exists []. repeat split; constructor.
  - destruct (isdigit c) eqn:Hc.
    + destruct (IH _ _ _ H) as (ds & Hds & Hs & Hrest & Hv).
      exists (c :: ds). split; [constructor; assumption |].
      split; [cbn; now rewrite <- Hs |]. split; assumption.
    + injection H as <- <-. exists [].
      split; [constructor |]. split; [reflexivity |]. split; [exact Hc | reflexivity].
Qed.

Lemma scan_sign_split (x : string) :
  exists g, x = (sign_text g ++ snd (scan_sign x))%string /\
            (fst (scan_sign x) = true <-> g = Minus).
Proof.
  destruct x as [| c x]; [exists NoSign; split; [reflexivity | split; discriminate] |].
  destruct c as [[] [] [] [] [] [] [] []];
    first [ exists Minus; split; [reflexivity | split; reflexivity]
          | exists Plus; split; [reflexivity | split; discriminate]
          | exists NoSign; split; [reflexivity | split; discriminate] ].
Qed.

(** What a successful [%d] directive has read. *)
Lemma scan_int_sound (s rest : string) (v : Z) :
  scan_int s = Some (v, rest) ->
  exists w g ds,
    decimal_integer w g ds /\ s = (int_text w g ds ++ rest)%string /\
    no_leading_digit rest /\ v = int_value g ds.
Proof.
  unfold scan_int. intro H.
  destruct (skip_spaces_split s) as (w & Hw & Hs).
  destruct (scan_sign_split (skip_spaces s)) as (g & Hg & Hneg).
  destruct (scan_sign (skip_spaces s)) as [neg s1]. cbn [fst snd] in Hg, Hneg.
  destruct s1 as [| c s1]; [discriminate |].
  destruct (isdigit c) eqn:Hc; [| discriminate].
  destruct (scan_digits 0 (String c s1)) as [v0 r0] eqn:Ed.
  injection H as <- <-.
  destruct (scan_digits_split _ _ _ _ Ed) as (ds & Hds & Hsplit & Hrest & Hv).
  exists w, g, ds. split; [| split; [| split]].
  - split; [exact Hw |]. split; [| exact Hds].
    intros ->. cbn in Hsplit. subst r0. cbn in Hrest. congruence.
  - unfold int_text. rewrite !append_assoc, <- Hsplit, <- Hg. exact Hs.
  - exact Hrest.
  - unfold int_value, number_of. rewrite <- Hv.
    destruct neg.
    + rewrite (proj1 Hneg eq_refl). reflexivity.
    + destruct g; try reflexivity.
      discriminate (proj2 Hneg eq_refl).
Qed.

(** A [%d] directive reads every decimal integer it is given. *)
Lemma scan_int_complete (w : list ascii) (g : Sign) (ds : list ascii)
      (rest : string) :
  decimal_integer w g ds -> no_leading_digit rest ->
  scan_int (int_text w g ds ++ rest) = Some (int_value g ds, rest).
Proof.
  intros (Hw & Hne & Hds) Hrest.
  destruct ds as [| c cs]; [congruence |].
  assert (Hc : isdigit c = true) by (inversion Hds; assumption).
  unfold int_text. rewrite !append_assoc.
  unfold scan_int. rewrite (skip_spaces_prefix w _ Hw).
  change (string_of_list_ascii (c :: cs) ++ rest)%string
    with (String c (string_of_list_ascii cs ++ rest)).
  assert (Hrun : scan_digits 0 (String c (string_of_list_ascii cs ++ rest)) =
                 (number_of (c :: cs), rest))
    by (apply (scan_digits_run (c :: cs) 0 rest Hds Hrest)).
  destruct g; cbn [sign_text append skip_spaces].
  - rewrite (isdigit_not_space c Hc), (isdigit_not_sign c _ Hc), Hc, Hrun.
    reflexivity.
  - change (isspace "+") with false. cbn [scan_sign]. rewrite Hc, Hrun.
    reflexivity.
  - change (isspace "-") with false. cbn [scan_sign]. rewrite Hc, Hrun.
    reflexivity.
Qed.

Lemma scan_int_before_dash (w : list ascii) (g : Sign) (ds : list ascii)
      (x : string) :
  decimal_integer w g ds ->
  scan_int (int_text w g ds ++ String "-" x) =
  Some (int_value g ds, String "-" x).
Proof.
  intro H. apply scan_int_complete; [exact H | reflexivity].
Qed.

Lemma match_char_split (c : ascii) (s s' : string) :
  match_char c s = Some s' -> s = String c s'.
Proof.
  destruct s as [| c' s0]; cbn; [discriminate |].
  destruct (Ascii.eqb c c') eqn:E; [| discriminate].
  apply Ascii.eqb_eq in E. congruence.
Qed.

(** [parse_date] succeeds exactly on the strings in which three integers
    can be read and are within the bounds. *)
Lemma parse_date_reads (s : string) (d : Date) :
  parse_date s = Some d <->
  reads_three_integers s (year d) (month d) (day d) /\
  out_of_bounds d = false.
Proof.
  unfold parse_date, sscanf_d_d_d. split.
  - intro H.
    destruct (scan_int s) as [[y s1] |] eqn:E1; [| discriminate].
    destruct (match_char "-" s1) as [s2 |] eqn:M1; [| discriminate].
    destruct (scan_int s2) as [[m s3] |] eqn:E2; [| discriminate].
    destruct (match_char "-" s3) as [s4 |] eqn:M2; [| discriminate].
    destruct (scan_int s4) as [[dd s5] |] eqn:E3; [| discriminate].
    destruct (out_of_bounds (mkDate y m dd)) eqn:Eb; [discriminate |].
    injection H as <-.
    destruct (scan_int_sound _ _ _ E1) as (w1 & g1 & ds1 & H1 & S1 & _ & V1).
    destruct (scan_int_sound _ _ _ E2) as (w2 & g2 & ds2 & H2 & S2 & _ & V2).
    destruct (scan_int_sound _ _ _ E3) as (w3 & g3 & ds3 & H3 & S3 & R3 & V3).
    apply match_char_split in M1, M2.
    split; [| exact Eb].
    exists w1, g1, ds1, w2, g2, ds2, w3, g3, ds3, s5.
    split; [rewrite S1, M1, S2, M2, S3; reflexivity |].
    split; [exact H1 |]. split; [exact H2 |]. split; [exact H3 |].
    split; [exact R3 |]. cbn [year month day]. repeat split; assumption.
  - intros ((w1 & g1 & ds1 & w2 & g2 & ds2 & w3 & g3 & ds3 & rest &
             -> & H1 & H2 & H3 & Hrest & Hy & Hm & Hd) & Hb).
    cbn [append].
    rewrite (scan_int_before_dash w1 g1 ds1 _ H1). cbn [match_char].
    rewrite Ascii.eqb_refl.
    rewrite (scan_int_before_dash w2 g2 ds2 _ H2). cbn [match_char].
    rewrite Ascii.eqb_refl.
    rewrite (scan_int_complete w3 g3 ds3 _ H3 Hrest).
    rewrite <- Hy, <- Hm, <- Hd.
    replace (mkDate (year d) (month d) (day d)) with d by (destruct d; reflexivity).
    now rewrite Hb.
Qed.

(** C1 (as amended). [parse_date] succeeds on a string exactly when the
    string starts with three decimal integers separated by [-] (each
    one optionally preceded by white space and by one sign, the third
    not followed by a digit; what comes after is free) whose values are
    a year in 1900..2100, a month in 1..12 and a day in 1..31; it then
    returns these values, and it fails on every other string, such as
    the empty string, ["abc"] and ["2024/01/05"].  In particular, on a
    string of the shape [YYYY-MM-DD] it succeeds exactly when the three
    fields are within those bounds; the day bound is flat, so 2024-02-30
    is accepted. *)
Theorem parse_date_accepts (s : string) :
  (forall d,
     parse_date s = Some d <->
     reads_three_integers s (year d) (month d) (day d) /\
     1900 <= year d <= 2100 /\ 1 <= month d <= 12 /\ 1 <= day d <= 31) /\
  ((forall y m d,
      reads_three_integers s y m d ->
      ~ (1900 <= y <= 2100 /\ 1 <= m <= 12 /\ 1 <= d <= 31)) ->
   parse_date s = None) /\
  (iso_shape s = true ->
   ((exists d, parse_date s = Some d) <->
    (1900 <= year (iso_fields s) <= 2100 /\
     1 <= month (iso_fields s) <= 12 /\
     1 <= day (iso_fields s) <= 31)) /\
   (forall d, parse_date s = Some d -> d = iso_fields s)) /\
  parse_date "2024-02-30" = Some (mkDate 2024 2 30) /\
  parse_date "" = None /\ parse_date "abc" = None /\
  parse_date "2024/01/05" = None.
Proof.
  split; [| split; [| split; [| repeat split; reflexivity]]].
  - intro d. rewrite parse_date_reads, out_of_bounds_false. reflexivity.
  - intro Hnone.
    destruct (parse_date s) as [d |] eqn:E; [| reflexivity].
    apply parse_date_reads in E. destruct E as (Hr & Hb).
    apply out_of_bounds_false in Hb.
    destruct (Hnone _ _ _ Hr Hb).
  - intro Hs. rewrite (parse_date_iso_shape s Hs).
    rewrite <- out_of_bounds_false.
    destruct (out_of_bounds (iso_fields s)); split.
    + split; [intros (d & Hd); discriminate | discriminate].
    + intros d Hd; discriminate.
    + split; [reflexivity | intros _; eexists; reflexivity].
    + intros d Hd. congruence.
Qed.

Lemma parse_date_accepts_witness :
  ((exists d, parse_date "2024-12-31" = Some d) <->
   (1900 <= year (iso_fields "2024-12-31") <= 2100 /\
    1 <= month (iso_fields "2024-12-31") <= 12 /\
    1 <= day (iso_fields "2024-12-31") <= 31)) /\
  (forall d, parse_date "2024-12-31" = Some d -> d = iso_fields "2024-12-31").
Proof.
  apply (proj1 (proj2 (proj2 (parse_date_accepts "2024-12-31")))). reflexivity.
Defined.

(** C1 as stated fails: strings that are not of the shape [YYYY-MM-DD]
    are accepted, since [sscanf] ignores what follows the third number,
    skips white space, reads signs and does not count digits. *)
Lemma parse_date_accepts_other_shapes :
  (parse_date "2024-01-05xyz" = Some (mkDate 2024 1 5) /\
   iso_shape "2024-01-05xyz" = false) /\
  (parse_date "2024-1-5" = Some (mkDate 2024 1 5) /\
   iso_shape "2024-1-5" = false) /\
  (parse_date " +2024- 1- 5" = Some (mkDate 2024 1 5) /\
   iso_shape " +2024- 1- 5" = false).
Proof.
  repeat split; reflexivity.
Qed.

(** Numbers that do not fit an [int]: the low 32 bits are kept, and a
    number beyond [long] is first cut to [LONG_MAX], which gives -1. *)
Example scan_wraps :
  atoi "4294967297" = 1 /\
  atoi "99999999999999999999" = -1 /\
  parse_date "4294969321-01-05" = Some (mkDate 2025 1 5).
Proof.
  repeat split; reflexivity.
Qed.

End ScanFacts.

(** ** Calendar *)

Module CalendarFacts.

Import Calendar.

Lemma rem_zero_divide (a b : Z) : b <> 0 -> (Z.rem a b =? 0) = true <-> (b | a).
Proof.
  intro Hb. rewrite Z.eqb_eq. now apply Z.rem_divide.
Qed.

(** C8. [is_leap_year] is the Gregorian rule: a year is leap exactly when
    it is divisible by 4 and not by 100, or divisible by 400; 2000 and
    2024 are leap, 1900 and 2023 are not. *)
Theorem is_leap_year_gregorian :
  (forall y, is_leap_year y = true <-> gregorian_leap y) /\
  is_leap_year 2000 = true /\ is_leap_year 1900 = false /\
  is_leap_year 2024 = true /\ is_leap_year 2023 = false.
Proof.
  split; [| repeat split; reflexivity].
  intro y. unfold is_leap_year, gregorian_leap.
  rewrite orb_true_iff, andb_true_iff, negb_true_iff.
  rewrite <- (rem_zero_divide y 4), <- (rem_zero_divide y 400) by lia.
  rewrite <- (rem_zero_divide y 100) by lia.
  rewrite not_true_iff_false. tauto.
Qed.

(** The month lengths the table can return. *)
Lemma days_in_month_cases (m y : Z) :
  1 <= m <= 12 ->
  exists dim, days_in_month m y = Some dim /\ 28 <= dim <= 31.
Proof.
  intro Hm. unfold days_in_month.
  assert (Hc : m = 1 \/ m = 2 \/ m = 3 \/ m = 4 \/ m = 5 \/ m = 6 \/
               m = 7 \/ m = 8 \/ m = 9 \/ m = 10 \/ m = 11 \/ m = 12) by lia.
  destruct (is_leap_year y);
    repeat (destruct Hc as [-> | Hc]); try subst m; cbn;
    eexists; (split; [reflexivity | lia]).
Qed.

Lemma days_in_month_defined (m y dim : Z) :
  days_in_month m y = Some dim -> 1 <= m <= 12 /\ 28 <= dim <= 31.
Proof.
  intro H.
  assert (Hm : 1 <= m <= 12).
  { unfold days_in_month in H.
    destruct ((m =? 2) && is_leap_year y) eqn:E.
    - apply andb_true_iff in E. lia.
    - destruct ((1 <=? m) && (m <=? 12)) eqn:E'; [| discriminate].
      apply andb_true_iff in E'. lia. }
  split; [exact Hm |].
  destruct (days_in_month_cases m y Hm) as (dim' & Hd & Hb).
  congruence.
Qed.

Lemma day_valid_flat (d : Date) : day_valid d -> flat_date d.
Proof.
  intros (Hm & dim & Hd & Hday). split; [exact Hm |].
  apply days_in_month_defined in Hd. lia.
Qed.

(** The three shapes of the result of [increment_date]. *)
Lemma increment_date_cases (d : Date) :
  1 <= month d <= 12 ->
  exists dim, days_in_month (month d) (year d) = Some dim /\ 28 <= dim <= 31 /\
    ((day d + 1 <= dim /\
      increment_date d = Some (mkDate (year d) (month d) (day d + 1))) \/
     (dim < day d + 1 /\ month d < 12 /\
      increment_date d = Some (mkDate (year d) (month d + 1) 1)) \/
     (dim < day d + 1 /\ month d = 12 /\
      increment_date d = Some (mkDate (year d + 1) 1 1))).
Proof.
  intro Hm.
  destruct (days_in_month_cases (month d) (year d) Hm) as (dim & Hd & Hb).
  exists dim. split; [exact Hd |]. split; [exact Hb |].
  unfold increment_date. rewrite Hd.
  destruct (day d + 1 >? dim) eqn:E1.
  - destruct (month d + 1 >? 12) eqn:E2.
    + right; right. repeat split; try lia.
    + right; left. repeat split; try lia.
  - left. split; [lia | reflexivity].
Qed.

(** The successor of a flat date: same or next year, and day-valid. *)
Lemma increment_date_successor (d : Date) (H : flat_date d) :
  exists d', increment_date d = Some d' /\
             year d <= year d' <= year d + 1 /\
             1 <= month d' <= 12 /\
             exists dim, days_in_month (month d') (year d') = Some dim /\
                         1 <= day d' <= dim.
Proof.
  destruct H as (Hm & Hday).
  destruct (increment_date_cases d Hm)
    as (dim & Hd & Hb & [(Hle & ->) | [(Hgt & Hlt & ->) | (Hgt & H12 & ->)]]).
  - eexists; split; [reflexivity |]. cbn.
    split; [lia |]. split; [lia |]. exists dim. split; [exact Hd | lia].
  - eexists; split; [reflexivity |]. cbn.
    split; [lia |]. split; [lia |].
    destruct (days_in_month_cases (month d + 1) (year d)) as (dim' & Hd' & Hb');
      [lia |].
    exists dim'. split; [exact Hd' | lia].
  - eexists; split; [reflexivity |]. cbn.
    split; [lia |]. split; [lia |].
    exists 31. split; [reflexivity | lia].
Qed.

(** C10. [increment_date] restores day-validity: from a date whose month
    is in 1..12 and whose day is in 1..31 it returns a date whose year is
    the same or the next one, whose month is in 1..12 and whose day lies
    between 1 and the length of that month. *)
Theorem increment_date_day_valid (d : Date) (H : flat_date d) :
  exists d', increment_date d = Some d' /\
             year d <= year d' <= year d + 1 /\
             1 <= month d' <= 12 /\
             exists dim, days_in_month (month d') (year d') = Some dim /\
                         1 <= day d' <= dim.
Proof.
  exact (increment_date_successor d H).
Qed.

Lemma increment_date_day_valid_witness :
  exists d', increment_date (mkDate 2024 2 30) = Some d' /\
             year (mkDate 2024 2 30) <= year d' <= year (mkDate 2024 2 30) + 1 /\
             1 <= month d' <= 12 /\
             exists dim, days_in_month (month d') (year d') = Some dim /\
                         1 <= day d' <= dim.
Proof.
  apply (increment_date_day_valid (mkDate 2024 2 30)).
  unfold flat_date; simpl; lia.
Defined.

(** Day-valid dates stay day-valid. *)
Lemma increment_date_preserves_day_valid (d : Date) :
  day_valid d -> exists d', increment_date d = Some d' /\ day_valid d'.
Proof.
  intro H. apply day_valid_flat in H.
  destruct (increment_date_successor d H) as (d' & Hi & _ & Hm & Hd).
  exists d'. split; [exact Hi |]. split; assumption.
Qed.

Lemma increment_date_flat (d d' : Date) :
  flat_date d -> increment_date d = Some d' -> flat_date d'.
Proof.
  intros H Hi.
  destruct (increment_date_successor d H) as (d2 & Hi2 & _ & Hm & Hd).
  assert (d2 = d') by congruence. subst d2.
  apply day_valid_flat. split; assumption.
Qed.

(** C7. A date accepted by [parse_date] (year in 1900..2100, month in
    1..12, day in 1..31) is strictly smaller than its successor:
    [compare_dates] returns -1 ("less") on the date and its increment. *)
Theorem compare_dates_increment_less (d : Date)
    (Hyear : 1900 <= year d <= 2100) (Hmonth : 1 <= month d <= 12)
    (Hday : 1 <= day d <= 31) :
  exists d', increment_date d = Some d' /\ compare_dates d d' = -1.
Proof.
  destruct (increment_date_cases d Hmonth)
    as (dim & Hd & Hb & [(Hle & ->) | [(Hgt & Hlt & ->) | (Hgt & H12 & ->)]]);
    eexists; (split; [reflexivity |]); unfold compare_dates; cbn.
  - rewrite !Z.eqb_refl. cbn.
    replace (day d =? day d + 1) with false by lia. cbn.
    replace (day d <? day d + 1) with true by lia. reflexivity.
  - rewrite Z.eqb_refl. cbn.
    replace (month d =? month d + 1) with false by lia. cbn.
    replace (month d <? month d + 1) with true by lia. reflexivity.
  - replace (year d =? year d + 1) with false by lia. cbn.
    replace (year d <? year d + 1) with true by lia. reflexivity.
Qed.

Lemma compare_dates_increment_less_witness :
  exists d', increment_date (mkDate 2100 12 31) = Some d' /\
             compare_dates (mkDate 2100 12 31) d' = -1.
Proof.
  apply (compare_dates_increment_less (mkDate 2100 12 31)); cbn; lia.
Defined.

Lemma increment_n_add (a b : nat) (d : Date) :
  increment_n (a + b) d =
  match increment_n a d with
  | Some d' => increment_n b d'
  | None => None
  end.
Proof.
  revert d. induction a as [| a IH]; intro d; simpl; [reflexivity |].
  destruct (increment_date d); [apply IH | reflexivity].
Qed.

Lemma step_in_year_sound (y m d m' d' : Z) :
  step_in_year (is_leap_year y) (m, d) = Some (m', d') ->
  increment_date (mkDate y m d) = Some (mkDate y m' d').
Proof.
  unfold step_in_year, increment_date, days_in_month. cbn [year month day].
  destruct (if (m =? 2) && is_leap_year y then Some 29
            else if (1 <=? m) && (m <=? 12)
                 then nth_error days (Z.to_nat (m - 1)) else None)
    as [dim |]; [| discriminate].
  destruct (d + 1 >? dim).
  - destruct (m + 1 >? 12); [discriminate |]. congruence.
  - congruence.
Qed.

Lemma steps_in_year_sound (n : nat) :
  forall y m d m' d',
    steps_in_year (is_leap_year y) n (m, d) = Some (m', d') ->
    increment_n n (mkDate y m d) = Some (mkDate y m' d').
Proof.
  induction n as [| n IH]; intros y m d m' d' H;
    cbn [steps_in_year increment_n] in *.
  - congruence.
  - destruct (step_in_year (is_leap_year y) (m, d)) as [[m1 d1] |] eqn:E;
      [| discriminate].
    rewrite (step_in_year_sound _ _ _ _ _ E). now apply IH.
Qed.

Lemma increment_date_new_year (y : Z) :
  increment_date (mkDate y 12 31) = Some (mkDate (y + 1) 1 1).
Proof.
  reflexivity.
Qed.

(** C6. 365 increments lead from January 1 of a non-leap year to
    January 1 of the next year, and 366 increments do so from January 1
    of a leap year. *)
Theorem increment_date_full_year (y : Z) :
  (is_leap_year y = false ->
   increment_n 365 (mkDate y 1 1) = Some (mkDate (y + 1) 1 1)) /\
  (is_leap_year y = true ->
   increment_n 366 (mkDate y 1 1) = Some (mkDate (y + 1) 1 1)).
Proof.
  split; intro Hleap.
  - change 365%nat with (364 + 1)%nat. rewrite increment_n_add.
    rewrite (steps_in_year_sound 364 y 1 1 12 31)
      by (rewrite Hleap; vm_compute; reflexivity).
    cbn [increment_n]. now rewrite increment_date_new_year.
  - change 366%nat with (365 + 1)%nat. rewrite increment_n_add.
    rewrite (steps_in_year_sound 365 y 1 1 12 31)
      by (rewrite Hleap; vm_compute; reflexivity).
    cbn [increment_n]. now rewrite increment_date_new_year.
Qed.

Lemma increment_date_full_year_witness :
  increment_n 365 (mkDate 2023 1 1) = Some (mkDate 2024 1 1) /\
  increment_n 366 (mkDate 2024 1 1) = Some (mkDate 2025 1 1).
Proof.
  split.
  - apply (proj1 (increment_date_full_year 2023)). reflexivity.
  - apply (proj2 (increment_date_full_year 2024)). reflexivity.
Defined.

End CalendarFacts.

(** ** The world: frame and invariant lemmas *)

Module WorldFacts.

Import Calendar World.

Lemma hoare_ret {A} (P : State -> Prop) (Q : A -> State -> Prop) (a : A) :
  (forall st, P st -> Q a st) -> hoare P (ret a) Q.
Proof.
  intros H st HP. now apply H.
Qed.

Lemma hoare_bind {A B} (P : State -> Prop) (R : A -> State -> Prop)
      (Q : B -> State -> Prop) (m : M A) (f : A -> M B) :
  hoare P m R -> (forall a, hoare (R a) (f a) Q) -> hoare P (bind m f) Q.
Proof.
  intros Hm Hf st HP. unfold bind.
  specialize (Hm st HP). destruct (m st) as [a st1]. cbn in Hm.
  exact (Hf a st1 Hm).
Qed.

Lemma hoare_if {A} (P : State -> Prop) (Q : A -> State -> Prop)
      (b : bool) (m1 m2 : M A) :
  (b = true -> hoare P m1 Q) -> (b = false -> hoare P m2 Q) ->
  hoare P (if b then m1 else m2) Q.
Proof.
  destruct b; auto.
Qed.

Lemma hoare_assume {A} (phi : Prop) (P : State -> Prop)
      (Q : A -> State -> Prop) (m : M A) :
  (phi -> hoare P m Q) -> hoare (fun st => phi /\ P st) m Q.
Proof.
  intros H st (Hphi & HP). now apply H.
Qed.

Section Invariant.

Variable cmds0 : list (Command * bool).
Variable file0 : list ActivityLogEntry.

Let Inv := run_invariant cmds0 file0.

(** [rand] returns a non-negative value and keeps the invariant. *)
Lemma rand_invariant :
  hoare Inv rand (fun r st => 0 <= r /\ Inv st).
Proof.
  intros st (Hg & Hc & Hf). unfold rand; cbn.
  split; [apply Hg |]. split; [| split; assumption].
  intro n. apply Hg.
Qed.

Lemma external_invariant :
  hoare Inv external (fun _ st => Inv st).
Proof.
  intros st H. exact H.
Qed.

Lemma system_invariant (cmd : Command) :
  (forall ok, command_time_ok (cmd, ok)) ->
  hoare Inv (system cmd) (fun _ st => Inv st).
Proof.
  intros Hcmd st (Hg & (new & Hc & Hnew) & Hf). unfold system; cbn.
  split; [exact Hg |]. split; [| exact Hf].
  exists ((cmd, st_oracle st (st_calls st)) :: new). split.
  - rewrite Hc. reflexivity.
  - constructor; [apply Hcmd | exact Hnew].
Qed.

Lemma append_entry_invariant (e : ActivityLogEntry) :
  entry_ok e ->
  hoare Inv (append_entry e) (fun _ st => Inv st).
Proof.
  intros He st (Hg & Hc & (new & Hf & Hnew)). unfold append_entry; cbn.
  split; [exact Hg |]. split; [exact Hc |].
  exists (e :: new). split.
  - rewrite Hf. reflexivity.
  - constructor; assumption.
Qed.

Lemma stat_invariant :
  hoare Inv stat_git_missing (fun _ st => Inv st).
Proof.
  intros st H. exact H.
Qed.

End Invariant.

Lemma run_invariant_start (st : State) :
  rng_ok (st_rng st) -> run_invariant (st_commands st) (st_file st) st.
Proof.
  intro H. split; [exact H |]. split; exists []; split; auto.
Qed.

Lemma keeps_oracle_ret {A} (a : A) : keeps_oracle (ret a).
Proof. intro st. reflexivity. Qed.

Lemma keeps_oracle_bind {A B} (m : M A) (f : A -> M B) :
  keeps_oracle m -> (forall a, keeps_oracle (f a)) -> keeps_oracle (bind m f).
Proof.
  intros Hm Hf st. unfold bind.
  specialize (Hm st). destruct (m st) as [a st1]. cbn in Hm.
  rewrite <- Hm. apply Hf.
Qed.

Lemma keeps_oracle_rand : keeps_oracle rand.
Proof. intro st. reflexivity. Qed.

Lemma keeps_oracle_external : keeps_oracle external.
Proof. intro st. reflexivity. Qed.

Lemma keeps_oracle_system (cmd : Command) : keeps_oracle (system cmd).
Proof. intro st. reflexivity. Qed.

Lemma keeps_oracle_append (e : ActivityLogEntry) : keeps_oracle (append_entry e).
Proof. intro st. reflexivity. Qed.

Lemma keeps_oracle_stat : keeps_oracle stat_git_missing.
Proof. intro st. reflexivity. Qed.

Lemma all_calls_succeed_oracle (st st' : State) :
  st_oracle st' = st_oracle st -> all_calls_succeed st -> all_calls_succeed st'.
Proof.
  intros H Hs k. rewrite H. apply Hs.
Qed.

Lemma rem_range (r n : Z) : 0 <= r -> 0 < n -> 0 <= Z.rem r n <= n - 1.
Proof.
  intros Hr Hn.
  pose proof (Z.rem_bound_pos r n Hr Hn). lia.
Qed.

End WorldFacts.

(** ** Commit generation *)

Module CommitFacts.

Import Calendar World Cyclops WorldFacts.

(** [create_commit], step by step. *)
Lemma create_commit_run (date : Date) (n : Z) (st : State) :
  let entry := mkEntry date n (Z.rem (draw st 0) 180 + 30)
                       (Z.rem (draw st 1) 100 + 10) in
  let message :=
    substring 0 (Z.to_nat (MAX_MESSAGE_LENGTH - 1))
      (nth (Z.to_nat (Z.rem (draw st 2) (Z.of_nat (List.length messages))))
           messages EmptyString) in
  let hour := Z.rem (draw st 3) 14 + 8 in
  let minute := Z.rem (draw st 4) 60 in
  create_commit date n st =
  if st_oracle st (st_calls st) then
    if st_oracle st (S (st_calls st)) then
      let ok := st_oracle st (S (S (st_calls st))) in
      (ok, advance st 5 3 (entry :: st_file st)
             ((GitCommit date hour minute message, ok)
                :: (GitAdd DATA_FILE, true) :: st_commands st))
    else
      (false, advance st 2 2 (entry :: st_file st)
                ((GitAdd DATA_FILE, false) :: st_commands st))
  else (false, snd (external st)).
Proof.
  unfold create_commit, bind, fopen_append, external, rand, append_entry,
    system, external, generate_commit_message, bind, rand, ret, advance, draw.
  cbn.
  destruct (st_oracle st (st_calls st)); cbn; [| reflexivity].
  destruct (st_oracle st (S (st_calls st))); cbn; [| reflexivity].
  destruct (st_oracle st (S (S (st_calls st)))); reflexivity.
Qed.

(** The record [create_commit] appends once the activity file is open. *)
Lemma create_commit_entry (date : Date) (n : Z) (st : State) :
  st_file (snd (create_commit date n st)) =
  if st_oracle st (st_calls st)
  then mkEntry date n (Z.rem (draw st 0) 180 + 30)
                      (Z.rem (draw st 1) 100 + 10) :: st_file st
  else st_file st.
Proof.
  rewrite create_commit_run.
  destruct (st_oracle st (st_calls st)); [| reflexivity].
  destruct (st_oracle st (S (st_calls st))); reflexivity.
Qed.

Lemma rng_ok_draw (st : State) (i : nat) : rng_ok (st_rng st) -> 0 <= draw st i.
Proof.
  intro H. apply H.
Qed.

(** C2. The session minutes of a record are [rand() % 180 + 30]: they lie
    between 30 and 209 for every generator state, so the value 210 that
    the comment of the source announces is never produced. *)
Theorem create_commit_session_minutes (date : Date) (n : Z) (st : State)
    (H : rng_ok (st_rng st)) (Hopen : st_oracle st (st_calls st) = true) :
  exists e, st_file (snd (create_commit date n st)) = e :: st_file st /\
            log_date e = date /\ log_number e = n /\
            log_session e = Z.rem (draw st 0) 180 + 30 /\
            30 <= log_session e <= 209 /\ log_session e <> 210.
Proof.
  rewrite create_commit_entry, Hopen.
  eexists; split; [reflexivity |].
  cbn [log_date log_number log_session].
  pose proof (rem_range (draw st 0) 180 (rng_ok_draw st 0 H)).
  repeat split; try reflexivity; lia.
Qed.

(** The largest session length, reached when [rand] returns 179. *)
Lemma create_commit_session_minutes_witness :
  exists e,
    st_file (snd (create_commit (mkDate 2024 1 1) 1
                    (mkState (rng_const 179) true (fun _ => true) 0 [] []))) =
    e :: [] /\
    log_date e = mkDate 2024 1 1 /\ log_number e = 1 /\
    log_session e = 209 /\
    30 <= log_session e <= 209 /\ log_session e <> 210.
Proof.
  apply (create_commit_session_minutes (mkDate 2024 1 1) 1
           (mkState (rng_const 179) true (fun _ => true) 0 [] [])).
  - intro k. unfold rng_const. cbn. lia.
  - reflexivity.
Defined.

(** Every value from 30 to 209 is the session length of some generator
    state. *)
Lemma session_minutes_reachable (date : Date) (n v : Z) :
  30 <= v <= 209 ->
  exists st, rng_ok (st_rng st) /\
             (forall k, tape (st_rng st) k <= RAND_MAX) /\
             exists e, st_file (snd (create_commit date n st)) = [e] /\
                       log_session e = v.
Proof.
  intro Hv.
  exists (mkState (rng_const (v - 30)) true (fun _ => true) 0 [] []).
  split; [intro k; unfold rng_const; cbn; lia |].
  split; [intro k; unfold RAND_MAX, rng_const; cbn; lia |].
  rewrite create_commit_entry. cbn [st_oracle st_calls st_file].
  eexists; split; [reflexivity |]. unfold draw, rng_const. cbn.
  rewrite Z.rem_small; lia.
Qed.

(** C3. The changed lines of a record are [rand() % 100 + 10]: they lie
    between 10 and 109 for every generator state, so the value 110 that
    the comment of the source announces is never produced. *)
Theorem create_commit_changed_lines (date : Date) (n : Z) (st : State)
    (H : rng_ok (st_rng st)) (Hopen : st_oracle st (st_calls st) = true) :
  exists e, st_file (snd (create_commit date n st)) = e :: st_file st /\
            log_date e = date /\ log_number e = n /\
            log_changes e = Z.rem (draw st 1) 100 + 10 /\
            10 <= log_changes e <= 109 /\ log_changes e <> 110.
Proof.
  rewrite create_commit_entry, Hopen.
  eexists; split; [reflexivity |].
  cbn [log_date log_number log_changes].
  pose proof (rem_range (draw st 1) 100 (rng_ok_draw st 1 H)).
  repeat split; try reflexivity; lia.
Qed.

(** The largest number of changed lines, reached when [rand] returns 99. *)
Lemma create_commit_changed_lines_witness :
  exists e,
    st_file (snd (create_commit (mkDate 2024 1 1) 1
                    (mkState (rng_const 99) true (fun _ => true) 0 [] []))) =
    e :: [] /\
    log_date e = mkDate 2024 1 1 /\ log_number e = 1 /\
    log_changes e = 109 /\
    10 <= log_changes e <= 109 /\ log_changes e <> 110.
Proof.
  apply (create_commit_changed_lines (mkDate 2024 1 1) 1
           (mkState (rng_const 99) true (fun _ => true) 0 [] [])).
  - intro k. unfold rng_const. cbn. lia.
  - reflexivity.
Defined.

(** Every value from 10 to 109 is the number of changed lines of some
    generator state. *)
Lemma changed_lines_reachable (date : Date) (n v : Z) :
  10 <= v <= 109 ->
  exists st, rng_ok (st_rng st) /\
             (forall k, tape (st_rng st) k <= RAND_MAX) /\
             exists e, st_file (snd (create_commit date n st)) = [e] /\
                       log_changes e = v.
Proof.
  intro Hv.
  exists (mkState (rng_const (v - 10)) true (fun _ => true) 0 [] []).
  split; [intro k; unfold rng_const; cbn; lia |].
  split; [intro k; unfold RAND_MAX, rng_const; cbn; lia |].
  rewrite create_commit_entry. cbn [st_oracle st_calls st_file].
  eexists; split; [reflexivity |]. unfold draw, rng_const. cbn.
  rewrite Z.rem_small; lia.
Qed.

Section Invariant.

Variable cmds0 : list (Command * bool).
Variable file0 : list ActivityLogEntry.

Let Inv := run_invariant cmds0 file0.

Lemma generate_commit_message_invariant (max_length : Z) :
  hoare Inv (generate_commit_message max_length) (fun _ st => Inv st).
Proof.
  unfold generate_commit_message.
  eapply hoare_bind; [apply rand_invariant |].
  intro r. apply hoare_ret. intros st H. apply H.
Qed.

Lemma create_commit_invariant (date : Date) (n : Z) :
  hoare Inv (create_commit date n) (fun _ st => Inv st).
Proof.
  unfold create_commit.
  eapply hoare_bind; [apply external_invariant |].
  intros [|]; cbn [negb]; [| apply hoare_ret; auto].
  eapply hoare_bind; [apply rand_invariant |].
  intro r1. apply hoare_assume. intro H1.
  eapply hoare_bind; [apply rand_invariant |].
  intro r2. apply hoare_assume. intro H2.
  eapply hoare_bind.
  { apply append_entry_invariant. split; cbn.
    - pose proof (rem_range r1 180 H1). lia.
    - pose proof (rem_range r2 100 H2). lia. }
  intros ?.
  eapply hoare_bind; [apply system_invariant; intro; exact I |].
  intros [|]; cbn [negb]; [| apply hoare_ret; auto].
  eapply hoare_bind; [apply generate_commit_message_invariant |].
  intro message.
  eapply hoare_bind; [apply rand_invariant |].
  intro r3. apply hoare_assume. intro H3.
  eapply hoare_bind; [apply rand_invariant |].
  intro r4. apply hoare_assume. intro H4.
  eapply hoare_bind.
  { apply system_invariant. intro ok. unfold command_time_ok; cbn.
    pose proof (rem_range r3 14 H3). pose proof (rem_range r4 60 H4). lia. }
  intros [|]; apply hoare_ret; auto.
Qed.

Lemma commit_loop_invariant (date : Date) (k : nat) :
  forall i, hoare Inv (commit_loop k i date) (fun _ st => Inv st).
Proof.
  induction k as [| k IH]; intro i; cbn [commit_loop].
  - apply hoare_ret. auto.
  - eapply hoare_bind; [apply create_commit_invariant |].
    intros [|]; cbn [negb]; [apply IH | apply hoare_ret; auto].
Qed.

Lemma init_git_repo_invariant :
  hoare Inv init_git_repo (fun _ st => Inv st).
Proof.
  unfold init_git_repo.
  eapply hoare_bind; [apply stat_invariant |].
  intros [|]; [| apply hoare_ret; auto].
  eapply hoare_bind; [apply system_invariant; intro; exact I |].
  intros [|]; cbn [negb]; [| apply hoare_ret; auto].
  eapply hoare_bind; [apply system_invariant; intro; exact I |]. intros ?.
  eapply hoare_bind; [apply system_invariant; intro; exact I |]. intros ?.
  apply hoare_ret. auto.
Qed.

Lemma day_loop_invariant (end_date : Date) (max : Z) (fuel : nat) :
  forall current total days seen,
    hoare Inv (day_loop fuel end_date max current total days seen)
          (fun _ st => Inv st).
Proof.
  induction fuel as [| fuel IH]; intros current total days seen;
    cbn [day_loop].
  - apply hoare_ret. auto.
  - destruct (compare_dates current end_date <=? 0); [| apply hoare_ret; auto].
    eapply hoare_bind; [apply rand_invariant |].
    intro r. apply hoare_assume. intros _.
    eapply hoare_bind.
    { apply hoare_if; intros ?;
        [apply commit_loop_invariant | apply hoare_ret; auto]. }
    intros [|]; cbn [negb]; [| apply hoare_ret; auto].
    destruct (increment_date current); [apply IH | apply hoare_ret; auto].
Qed.

Lemma main_invariant (fuel : nat) (argv : list string) :
  hoare Inv (main fuel argv) (fun _ st => Inv st).
Proof.
  unfold main, exit_early.
  destruct argv as [| a0 [| a1 [| a2 [| a3 [| ? ?]]]]];
    try (apply hoare_ret; auto).
  destruct (parse_date a1); [| apply hoare_ret; auto].
  destruct (parse_date a2); [| apply hoare_ret; auto].
  destruct ((Scan.atoi a3 <? 1) || (Scan.atoi a3 >? 50));
    [apply hoare_ret; auto |].
  destruct (compare_dates d d0 >? 0); [apply hoare_ret; auto |].
  eapply hoare_bind; [apply init_git_repo_invariant |].
  intros [|]; cbn [negb]; [apply day_loop_invariant | apply hoare_ret; auto].
Qed.

End Invariant.

Lemma invariant_commit_times (cmds0 : list (Command * bool))
      (file0 : list ActivityLogEntry) (st : State) :
  run_invariant cmds0 file0 st ->
  exists new, st_commands st = new ++ cmds0 /\
    forall d h m msg ok,
      In (GitCommit d h m msg, ok) new -> 8 <= h <= 21 /\ 0 <= m <= 59.
Proof.
  intros (_ & (new & Hc & Hnew) & _). exists new. split; [exact Hc |].
  intros d h m msg ok Hin.
  rewrite Forall_forall in Hnew. exact (Hnew _ Hin).
Qed.

(** The commands one call of [create_commit] issues. *)
Lemma create_commit_commands (date : Date) (n : Z) (st : State) :
  rng_ok (st_rng st) ->
  exists new,
    st_commands (snd (create_commit date n st)) = new ++ st_commands st /\
    (forall d h m msg ok,
       In (GitCommit d h m msg, ok) new ->
       d = date /\ 8 <= h <= 21 /\ 0 <= m <= 59) /\
    (fst (create_commit date n st) = true ->
     exists h m msg, In (GitCommit date h m msg, true) new).
Proof.
  intro Hg. rewrite create_commit_run.
  destruct (st_oracle st (st_calls st)).
  - destruct (st_oracle st (S (st_calls st))).
    + eexists [_; _]. split; [reflexivity |]. split.
      * intros d h m msg ok [Hin | [Hin | []]]; [| discriminate Hin].
        injection Hin as <- <- <- _ _.
        pose proof (rem_range (draw st 3) 14 (rng_ok_draw st 3 Hg)).
        pose proof (rem_range (draw st 4) 60 (rng_ok_draw st 4 Hg)).
        split; [reflexivity | lia].
      * cbn [fst]. intros ->. eexists _, _, _. left. reflexivity.
    + exists [(GitAdd DATA_FILE, false)]. split; [reflexivity |]. split.
      * intros d h m msg ok [Hin | []]. discriminate Hin.
      * discriminate.
  - exists []. split; [reflexivity |]. split.
    + intros d h m msg ok [].
    + discriminate.
Qed.

(** C9. For every generator state, every [git commit] command that
    [create_commit] issues carries an hour between 8 and 21 and a minute
    between 0 and 59 (and a successful call did issue one); the same
    holds for all the commands of a whole run of [main]. *)
Theorem commit_time_of_day (st : State) (H : rng_ok (st_rng st)) :
  (forall date n,
     exists new,
       st_commands (snd (create_commit date n st)) = new ++ st_commands st /\
       (forall d h m msg ok,
          In (GitCommit d h m msg, ok) new ->
          d = date /\ 8 <= h <= 21 /\ 0 <= m <= 59) /\
       (fst (create_commit date n st) = true ->
        exists h m msg, In (GitCommit date h m msg, true) new)) /\
  (forall fuel argv,
     exists new,
       st_commands (snd (main fuel argv st)) = new ++ st_commands st /\
       forall d h m msg ok,
         In (GitCommit d h m msg, ok) new -> 8 <= h <= 21 /\ 0 <= m <= 59).
Proof.
  split.
  - intros date n. now apply create_commit_commands.
  - intros fuel argv.
    apply (invariant_commit_times _ (st_file st)).
    apply (main_invariant _ _ fuel argv st).
    now apply run_invariant_start.
Qed.

Lemma commit_time_of_day_witness :
  (forall date n,
     exists new,
       st_commands (snd (create_commit date n (calm_world 1))) =
       new ++ st_commands (calm_world 1) /\
       (forall d h m msg ok,
          In (GitCommit d h m msg, ok) new ->
          d = date /\ 8 <= h <= 21 /\ 0 <= m <= 59) /\
       (fst (create_commit date n (calm_world 1)) = true ->
        exists h m msg, In (GitCommit date h m msg, true) new)) /\
  (forall fuel argv,
     exists new,
       st_commands (snd (main fuel argv (calm_world 1))) =
       new ++ st_commands (calm_world 1) /\
       forall d h m msg ok,
         In (GitCommit d h m msg, ok) new -> 8 <= h <= 21 /\ 0 <= m <= 59).
Proof.
  apply (commit_time_of_day (calm_world 1)).
  intro k. unfold calm_world, rng_const. cbn. lia.
Defined.

(** A commit made when [rand] keeps returning 1: 09:01, second message. *)
Example create_commit_calm :
  st_commands (snd (create_commit (mkDate 2024 2 29) 1 (calm_world 1))) =
  [ (GitCommit (mkDate 2024 2 29) 9 1 "Add comprehensive unit tests", true);
    (GitAdd DATA_FILE, true) ].
Proof.
  reflexivity.
Qed.

End CommitFacts.

(** ** The order on dates and the calendar range *)

Module RangeFacts.

Import Calendar Range CalendarFacts.

Lemma date_eq (a b : Date) :
  year a = year b -> month a = month b -> day a = day b -> a = b.
Proof.
  destruct a, b; cbn; intros; subst; reflexivity.
Qed.

(** [compare_dates] decides the lexicographic order. *)
Lemma compare_dates_le (a b : Date) : compare_dates a b <= 0 <-> lex_le a b.
Proof.
  unfold compare_dates, lex_le.
  destruct (year a =? year b) eqn:Ey; cbn [negb].
  - apply Z.eqb_eq in Ey.
    destruct (month a =? month b) eqn:Em; cbn [negb].
    + apply Z.eqb_eq in Em.
      destruct (day a =? day b) eqn:Ed; cbn [negb].
      * apply Z.eqb_eq in Ed. lia.
      * apply Z.eqb_neq in Ed. destruct (day a <? day b) eqn:El; lia.
    + apply Z.eqb_neq in Em. destruct (month a <? month b) eqn:El; lia.
  - apply Z.eqb_neq in Ey. destruct (year a <? year b) eqn:El; lia.
Qed.

Lemma compare_dates_gt (a b : Date) : compare_dates a b > 0 <-> lex_lt b a.
Proof.
  unfold compare_dates, lex_lt.
  destruct (year a =? year b) eqn:Ey; cbn [negb].
  - apply Z.eqb_eq in Ey.
    destruct (month a =? month b) eqn:Em; cbn [negb].
    + apply Z.eqb_eq in Em.
      destruct (day a =? day b) eqn:Ed; cbn [negb].
      * apply Z.eqb_eq in Ed. lia.
      * apply Z.eqb_neq in Ed. destruct (day a <? day b) eqn:El; lia.
    + apply Z.eqb_neq in Em. destruct (month a <? month b) eqn:El; lia.
  - apply Z.eqb_neq in Ey. destruct (year a <? year b) eqn:El; lia.
Qed.

(** On flat dates the order is the order of the ranks. *)
Lemma lex_le_rank (a b : Date) :
  flat_date a -> flat_date b -> lex_le a b -> rank a <= rank b.
Proof.
  unfold flat_date, lex_le, rank. lia.
Qed.

Lemma increment_date_rank (d d' : Date) :
  flat_date d -> increment_date d = Some d' -> rank d < rank d'.
Proof.
  intros (Hm & Hd) Hi.
  destruct (increment_date_cases d Hm)
    as (dim & _ & Hb & [(Hle & E) | [(Hgt & Hlt & E) | (Hgt & H12 & E)]]);
    rewrite E in Hi; injection Hi as <-; unfold rank; cbn; lia.
Qed.

Lemma increment_date_lt (d d' : Date) :
  1 <= month d <= 12 -> increment_date d = Some d' -> lex_lt d d'.
Proof.
  intros Hm Hi.
  destruct (increment_date_cases d Hm)
    as (dim & _ & Hb & [(Hle & E) | [(Hgt & Hlt & E) | (Hgt & H12 & E)]]);
    rewrite E in Hi; injection Hi as <-; unfold lex_lt; cbn; lia.
Qed.

(** No calendar day lies strictly between a calendar day and its
    successor. *)
Lemma increment_date_no_gap (cur next d : Date) :
  day_valid cur -> day_valid d -> increment_date cur = Some next ->
  lex_lt cur d -> lex_le next d.
Proof.
  intros (Hm & dimc & Hdc & Hc) (Hmd & dimd & Hdd & Hd) Hi Hlt.
  destruct (increment_date_cases cur Hm)
    as (dim & Hdim & Hb & [(Hle & E) | [(Hgt & Hlt' & E) | (Hgt & H12 & E)]]);
    rewrite E in Hi; injection Hi as <-;
    unfold lex_lt in Hlt; unfold lex_le; cbn [year month day].
  - lia.
  - destruct (Z.eq_dec (year cur) (year d)) as [Ey | Ny]; [| lia].
    destruct (Z.eq_dec (month cur) (month d)) as [Em | Nm]; [| lia].
    rewrite <- Ey, <- Em in Hdd.
    assert (dimd = dim) by congruence. lia.
  - destruct (Z.eq_dec (year cur) (year d)) as [Ey | Ny]; [| lia].
    destruct (Z.eq_dec (month cur) (month d)) as [Em | Nm]; [| lia].
    rewrite <- Ey, <- Em in Hdd.
    assert (dimd = dim) by congruence. lia.
Qed.

(** The walk of the main loop from a calendar day visits, once each, the
    calendar days from that day to the end date. *)
Lemma steps_to_members (e cur : Date) (l : list Date) :
  steps_to e cur l -> day_valid cur ->
  NoDup l /\
  forall d, In d l <-> day_valid d /\ lex_le cur d /\ lex_le d e.
Proof.
  induction 1 as [cur Hgt | cur next l Hle Hi Hsteps IH]; intro Hv.
  - split; [constructor |].
    intro d. split; [intros [] |].
    intros (_ & H1 & H2). apply compare_dates_gt in Hgt.
    unfold lex_le, lex_lt in *. lia.
  - destruct (increment_date_preserves_day_valid cur Hv) as (n' & Hi' & Hvn).
    assert (n' = next) by congruence. subst n'.
    destruct (IH Hvn) as (Hnd & Hin).
    pose proof (increment_date_lt cur next (proj1 Hv) Hi) as Hlt.
    apply compare_dates_le in Hle.
    split.
    + constructor; [| exact Hnd].
      intro Hc. apply Hin in Hc. destruct Hc as (_ & Hc & _).
      unfold lex_le, lex_lt in *. lia.
    + intro d. cbn [In]. rewrite Hin. split.
      * intros [<- | (Hd & H1 & H2)].
        -- split; [exact Hv |]. split; [unfold lex_le; lia | exact Hle].
        -- split; [exact Hd |]. split; [| exact H2].
           unfold lex_le, lex_lt in *. lia.
      * intros (Hd & H1 & H2).
        assert (Hcase : cur = d \/ lex_lt cur d).
        { destruct (Z.eq_dec (year cur) (year d));
            destruct (Z.eq_dec (month cur) (month d));
            destruct (Z.eq_dec (day cur) (day d));
            try (left; now apply date_eq);
            right; unfold lex_le, lex_lt in *; lia. }
        destruct Hcase as [-> | Hlt']; [now left | right].
        split; [exact Hd |]. split; [| exact H2].
        now apply (increment_date_no_gap cur next d).
Qed.

Lemma In_Zseq (start x : Z) (len : nat) :
  In x (Zseq start len) <-> start <= x < start + Z.of_nat len.
Proof.
  unfold Zseq. rewrite in_map_iff. split.
  - intros (k & <- & Hk). apply in_seq in Hk. lia.
  - intro H. exists (Z.to_nat (x - start)). split; [lia |].
    apply in_seq. lia.
Qed.

Lemma NoDup_Zseq (start : Z) (len : nat) : NoDup (Zseq start len).
Proof.
  unfold Zseq. apply Finite.Injective_map_NoDup; [| apply seq_NoDup].
  intros a b H. lia.
Qed.

Lemma NoDup_flat_map {A B} (f : A -> list B) (l : list A) :
  NoDup l ->
  (forall a, In a l -> NoDup (f a)) ->
  (forall a a' b, In a l -> In a' l -> In b (f a) -> In b (f a') -> a = a') ->
  NoDup (flat_map f l).
Proof.
  induction 1 as [| a l Hnotin Hnd IH]; intros Hf Hdisj; cbn.
  - constructor.
  - apply NoDup_app.
    + apply Hf. now left.
    + apply IH.
      * intros a' Ha'. apply Hf. now right.
      * intros a1 a2 b H1 H2. apply Hdisj; now right.
    + intros b Hb Hb'. apply in_flat_map in Hb'.
      destruct Hb' as (a' & Ha' & Hb').
      assert (a = a') by (apply (Hdisj a a' b); auto; [now left | now right]).
      subst a'. contradiction.
Qed.

Lemma In_candidates (y1 y2 : Z) (d : Date) :
  In d (candidates y1 y2) <->
  y1 <= year d <= y2 /\ 1 <= month d <= 12 /\ 1 <= day d <= 31.
Proof.
  unfold candidates. rewrite in_flat_map. split.
  - intros (y & Hy & H). apply in_flat_map in H. destruct H as (m & Hm & H).
    apply in_map_iff in H. destruct H as (dd & <- & Hd).
    apply In_Zseq in Hy, Hm, Hd. cbn. lia.
  - intros (Hy & Hm & Hd). exists (year d). split; [apply In_Zseq; lia |].
    apply in_flat_map. exists (month d). split; [apply In_Zseq; lia |].
    apply in_map_iff. exists (day d). split; [| apply In_Zseq; lia].
    destruct d; reflexivity.
Qed.

Lemma NoDup_candidates (y1 y2 : Z) : NoDup (candidates y1 y2).
Proof.
  unfold candidates. apply NoDup_flat_map.
  - apply NoDup_Zseq.
  - intros y _. apply NoDup_flat_map.
    + apply NoDup_Zseq.
    + intros m _. apply Finite.Injective_map_NoDup; [| apply NoDup_Zseq].
      intros a b H. now injection H.
    + intros m m' d _ _ H H'.
      apply in_map_iff in H, H'.
      destruct H as (x & <- & _), H' as (x' & H' & _). now injection H'.
  - intros y y' d _ _ H H'.
    apply in_flat_map in H, H'.
    destruct H as (m & _ & H), H' as (m' & _ & H').
    apply in_map_iff in H, H'.
    destruct H as (x & <- & _), H' as (x' & H' & _). now injection H'.
Qed.

Lemma rem_mod_zero (y k : Z) : 0 < k -> (Z.rem y k =? 0) = (y mod k =? 0).
Proof.
  intro Hk. apply eq_true_iff_eq.
  rewrite !Z.eqb_eq, Z.rem_divide, Z.mod_divide by lia. reflexivity.
Qed.

(** The program's leap test and month table agree with the civil
    calendar. *)
Lemma is_leap_year_rule (y : Z) : is_leap_year y = leap_year_rule y.
Proof.
  unfold is_leap_year, leap_year_rule.
  now rewrite !rem_mod_zero by lia.
Qed.

Lemma days_in_month_length (m y : Z) :
  1 <= m <= 12 -> days_in_month m y = Some (month_length y m).
Proof.
  intro Hm. unfold days_in_month, month_length.
  rewrite is_leap_year_rule.
  assert (Hc : m = 1 \/ m = 2 \/ m = 3 \/ m = 4 \/ m = 5 \/ m = 6 \/
               m = 7 \/ m = 8 \/ m = 9 \/ m = 10 \/ m = 11 \/ m = 12) by lia.
  destruct (leap_year_rule y);
    repeat (destruct Hc as [-> | Hc]); try subst m; reflexivity.
Qed.

Lemma calendar_day_valid (d : Date) : calendar_day d <-> day_valid d.
Proof.
  unfold calendar_day, calendar_dayb, day_valid.
  rewrite !andb_true_iff, !Z.leb_le. split.
  - intros (((H1 & H2) & H3) & H4). split; [lia |].
    exists (month_length (year d) (month d)).
    split; [apply days_in_month_length; lia | lia].
  - intros (Hm & dim & Hd & Hday).
    rewrite (days_in_month_length _ _ Hm) in Hd. injection Hd as <-. lia.
Qed.

Lemma In_calendar_range (s e d : Date) :
  In d (calendar_range s e) <-> calendar_day d /\ lex_le s d /\ lex_le d e.
Proof.
  unfold calendar_range, date_leb.
  rewrite filter_In, In_candidates, !andb_true_iff.
  rewrite !Z.leb_le, !compare_dates_le.
  change (calendar_dayb d = true) with (calendar_day d). split.
  - tauto.
  - intros (Hd & H1 & H2). split; [| tauto].
    pose proof (day_valid_flat d (proj1 (calendar_day_valid d) Hd)) as (Hm & Hday).
    unfold lex_le in *. lia.
Qed.

Lemma NoDup_calendar_range (s e : Date) : NoDup (calendar_range s e).
Proof.
  apply NoDup_filter, NoDup_candidates.
Qed.

(** The walk of the main loop is the calendar range, up to order. *)
Lemma steps_to_calendar_range (s e : Date) (l : list Date) :
  steps_to e s l -> day_valid s -> Permutation l (calendar_range s e).
Proof.
  intros Hsteps Hv.
  destruct (steps_to_members e s l Hsteps Hv) as (Hnd & Hin).
  apply NoDup_Permutation; [exact Hnd | apply NoDup_calendar_range |].
  intro d. rewrite Hin, In_calendar_range, calendar_day_valid. tauto.
Qed.

(** The successor of a date with a month in 1..12 is at most every
    calendar day after that date, also when the date itself is no
    calendar day. *)
Lemma increment_date_no_gap_flat (cur next d : Date) :
  1 <= month cur <= 12 -> day_valid d -> increment_date cur = Some next ->
  lex_lt cur d -> lex_le next d.
Proof.
  intros Hm (Hmd & dimd & Hdd & Hd) Hi Hlt.
  destruct (increment_date_cases cur Hm)
    as (dim & Hdim & Hb & [(Hle & E) | [(Hgt & Hlt' & E) | (Hgt & H12 & E)]]);
    rewrite E in Hi; injection Hi as <-;
    unfold lex_lt in Hlt; unfold lex_le; cbn [year month day].
  - lia.
  - destruct (Z.eq_dec (year cur) (year d)) as [Ey | Ny]; [| lia].
    destruct (Z.eq_dec (month cur) (month d)) as [Em | Nm]; [| lia].
    rewrite <- Ey, <- Em in Hdd.
    assert (dimd = dim) by congruence. lia.
  - destruct (Z.eq_dec (year cur) (year d)) as [Ey | Ny]; [| lia].
    destruct (Z.eq_dec (month cur) (month d)) as [Em | Nm]; [| lia].
    rewrite <- Ey, <- Em in Hdd.
    assert (dimd = dim) by congruence. lia.
Qed.

Lemma lex_cases (a b : Date) : lex_le a b -> a = b \/ lex_lt a b.
Proof.
  intro H.
  destruct (Z.eq_dec (year a) (year b));
    destruct (Z.eq_dec (month a) (month b));
    destruct (Z.eq_dec (day a) (day b));
    try (left; now apply date_eq);
    right; unfold lex_le, lex_lt in *; lia.
Qed.

(** The walk of the main loop from any date that [parse_date] accepts:
    it visits, once each, that date and the calendar days up to the end
    date. *)
Lemma steps_to_members_flat (e s : Date) (l : list Date) :
  steps_to e s l -> flat_date s ->
  NoDup l /\
  forall d, In d l <-> (d = s \/ calendar_day d) /\ lex_le s d /\ lex_le d e.
Proof.
  intros Hsteps Hflat.
  inversion Hsteps as [cur Hgt | cur next l' Hle Hi Hrest]; subst.
  - split; [constructor |].
    intro d. split; [intros [] |].
    intros (_ & H1 & H2). apply compare_dates_gt in Hgt.
    unfold lex_le, lex_lt in *. lia.
  - destruct (increment_date_successor s Hflat) as (n' & Hi' & _ & Hmn & Hdn).
    assert (n' = next) by congruence. subst n'.
    assert (Hvn : day_valid next) by (split; assumption).
    destruct (steps_to_members e next l' Hrest Hvn) as (Hnd & Hin).
    pose proof (increment_date_lt s next (proj1 Hflat) Hi) as Hlt.
    apply compare_dates_le in Hle.
    split.
    + constructor; [| exact Hnd].
      intro Hc. apply Hin in Hc. destruct Hc as (_ & Hc & _).
      unfold lex_le, lex_lt in *. lia.
    + intro d. cbn [In]. rewrite Hin. split.
      * intros [<- | (Hd & H1 & H2)].
        -- split; [now left |]. split; [unfold lex_le; lia | exact Hle].
        -- split; [right; now apply calendar_day_valid |].
           split; [| exact H2]. unfold lex_le, lex_lt in *. lia.
      * intros ([-> | Hd] & H1 & H2); [now left |].
        destruct (lex_cases s d H1) as [-> | Hlt']; [now left | right].
        apply calendar_day_valid in Hd.
        split; [exact Hd |]. split; [| exact H2].
        now apply (increment_date_no_gap_flat s next d (proj1 Hflat)).
Qed.

(** The number of dates the walk visits: the calendar days of the range,
    and the start date when it is not one of them. *)
Lemma steps_to_count (e s : Date) (l : list Date) :
  steps_to e s l -> flat_date s -> lex_le s e ->
  Z.of_nat (List.length l) =
  Z.of_nat (List.length (calendar_range s e)) +
  (if calendar_dayb s then 0 else 1).
Proof.
  intros Hsteps Hflat Hse.
  destruct (calendar_dayb s) eqn:Hcal.
  - rewrite (Permutation_length
               (steps_to_calendar_range s e l Hsteps
                  (proj1 (calendar_day_valid s) Hcal))). lia.
  - inversion Hsteps as [cur Hgt | cur next l' Hle Hi Hrest]; subst.
    + apply compare_dates_gt in Hgt. unfold lex_le, lex_lt in *. lia.
    + destruct (increment_date_successor s Hflat) as (n' & Hi' & _ & Hmn & Hdn).
      assert (n' = next) by congruence. subst n'.
      assert (Hvn : day_valid next) by (split; assumption).
      destruct (steps_to_members e next l' Hrest Hvn) as (Hnd & Hin).
      pose proof (increment_date_lt s next (proj1 Hflat) Hi) as Hlt.
      assert (Hperm : Permutation l' (calendar_range s e)).
      { apply NoDup_Permutation; [exact Hnd | apply NoDup_calendar_range |].
        intro d. rewrite Hin, In_calendar_range, calendar_day_valid. split.
        - intros (Hd & H1 & H2). split; [exact Hd |]. split; [| exact H2].
          unfold lex_le, lex_lt in *. lia.
        - intros (Hd & H1 & H2). split; [exact Hd |]. split; [| exact H2].
          destruct (lex_cases s d H1) as [-> | Hlt'].
          + apply calendar_day_valid in Hd. unfold calendar_day in Hd.
            congruence.
          + now apply (increment_date_no_gap_flat s next d (proj1 Hflat)). }
      cbn [List.length]. rewrite (Permutation_length Hperm). lia.
Qed.

End RangeFacts.

(** ** The driver *)

Module MainFacts.

Import Calendar World Cyclops Range.
Import CalendarFacts ScanFacts WorldFacts CommitFacts RangeFacts.

Lemma create_commit_oracle (date : Date) (n : Z) :
  keeps_oracle (create_commit date n).
Proof.
  intro st. rewrite create_commit_run.
  destruct (st_oracle st (st_calls st)); [| reflexivity].
  destruct (st_oracle st (S (st_calls st))); reflexivity.
Qed.

Lemma create_commit_succeeds (date : Date) (n : Z) (st : State) :
  all_calls_succeed st -> fst (create_commit date n st) = true.
Proof.
  intro H. rewrite create_commit_run, !H. reflexivity.
Qed.

Lemma commit_loop_oracle (date : Date) (k : nat) :
  forall i, keeps_oracle (commit_loop k i date).
Proof.
  induction k as [| k IH]; intro i; cbn [commit_loop].
  - apply keeps_oracle_ret.
  - apply keeps_oracle_bind; [apply create_commit_oracle |].
    intros [|]; cbn [negb]; [apply IH | apply keeps_oracle_ret].
Qed.

Lemma commit_loop_succeeds (date : Date) (k : nat) :
  forall i st, all_calls_succeed st -> fst (commit_loop k i date st) = true.
Proof.
  induction k as [| k IH]; intros i st H; cbn [commit_loop].
  - reflexivity.
  - unfold bind.
    pose proof (create_commit_succeeds date i st H) as Hok.
    pose proof (create_commit_oracle date i st) as Ho.
    destruct (create_commit date i st) as [ok st1]. cbn in Hok, Ho.
    subst ok. cbn [negb]. apply IH.
    now apply (all_calls_succeed_oracle st).
Qed.

Lemma init_git_repo_oracle : keeps_oracle init_git_repo.
Proof.
  unfold init_git_repo.
  apply keeps_oracle_bind; [apply keeps_oracle_stat |].
  intros [|]; [| apply keeps_oracle_ret].
  apply keeps_oracle_bind; [apply keeps_oracle_system |].
  intros [|]; cbn [negb]; [| apply keeps_oracle_ret].
  apply keeps_oracle_bind; [apply keeps_oracle_system |]. intros ?.
  apply keeps_oracle_bind; [apply keeps_oracle_system |]. intros ?.
  apply keeps_oracle_ret.
Qed.

Lemma init_git_repo_succeeds (st : State) :
  all_calls_succeed st -> fst (init_git_repo st) = true.
Proof.
  intro H. unfold init_git_repo, bind, stat_git_missing, system, external, ret.
  cbn. destruct (st_git_dir st); cbn; [reflexivity |].
  rewrite H. reflexivity.
Qed.

(** The number of commits drawn for a day is at most the maximum. *)
Lemma commits_today_bound (r max : Z) : 0 <= max -> Z.rem r (max + 1) <= max.
Proof.
  intro H.
  pose proof (Z.rem_bound_abs r (max + 1) ltac:(lia)). lia.
Qed.

(** The main loop, on enough fuel: it returns; when it runs to the end it
    has gone through the walk [steps_to] from the current date, counted
    its days and drawn at most [max] commits on each; it runs to the end
    when every external call succeeds. *)
Lemma day_loop_runs (e : Date) (max : Z) (He : flat_date e) (Hmax : 0 <= max)
      (fuel : nat) :
  forall cur total days seen st,
    flat_date cur -> (loop_fuel cur e <= fuel)%nat ->
    exists run st' l,
      day_loop fuel e max cur total days seen st = (Done run, st') /\
      st_oracle st' = st_oracle st /\
      (exit_code run = 1 \/
       (exit_code run = 0 /\ steps_to e cur l /\
        visited run = seen ++ l /\
        days_processed run = days + Z.of_nat (List.length l) /\
        total <= total_commits run <= total + max * Z.of_nat (List.length l))) /\
      (all_calls_succeed st -> exit_code run = 0).
Proof.
  induction fuel as [| fuel IH]; intros cur total days seen st Hcur Hfuel.
  - unfold loop_fuel in Hfuel. lia.
  - cbn [day_loop].
    destruct (compare_dates cur e <=? 0) eqn:Ecmp.
    + apply Z.leb_le in Ecmp.
      unfold bind at 1. cbn [rand].
      set (r := tape (st_rng st) (pos (st_rng st))).
      set (st1 := mkState _ _ _ _ _ _).
      set (commits := Z.rem r (max + 1)).
      unfold bind at 1.
      assert (Ho1 : st_oracle st1 = st_oracle st) by reflexivity.
      assert (Hloop :
        st_oracle (snd ((if commits >? 0
                         then commit_loop (Z.to_nat commits) 1 cur
                         else ret true) st1)) = st_oracle st1 /\
        (all_calls_succeed st1 ->
         fst ((if commits >? 0
               then commit_loop (Z.to_nat commits) 1 cur
               else ret true) st1) = true)).
      { destruct (commits >? 0).
        - split; [apply commit_loop_oracle | apply commit_loop_succeeds].
        - split; reflexivity. }
      destruct ((if commits >? 0
                 then commit_loop (Z.to_nat commits) 1 cur
                 else ret true) st1) as [ok st2].
      cbn [fst snd] in Hloop. destruct Hloop as (Ho2 & Hok).
      destruct ok; cbn [negb].
      * destruct (increment_date_successor cur Hcur)
          as (next & Hi & _ & Hmn & Hdn).
        rewrite Hi.
        assert (Hnext : flat_date next)
          by (apply day_valid_flat; split; assumption).
        pose proof (increment_date_rank cur next Hcur Hi) as Hrank.
        pose proof (lex_le_rank cur e Hcur He
                      (proj1 (compare_dates_le cur e) Ecmp)) as Hle.
        assert (Hfuel' : (loop_fuel next e <= fuel)%nat)
          by (unfold loop_fuel in *; lia).
        destruct (IH next
                    (if commits >? 0 then total + commits else total)
                    (days + 1) (seen ++ [cur]) st2 Hnext Hfuel')
          as (run & st' & l & Hrun & Ho & Hres & Hall).
        exists run, st', (cur :: l).
        split; [exact Hrun |]. split; [congruence |]. split.
        -- destruct Hres as [H1 | (H0 & Hsteps & Hvis & Hdays & Htot)];
             [now left | right].
           split; [exact H0 |].
           split; [now apply steps_next with next |].
           split; [rewrite Hvis, <- app_assoc; reflexivity |].
           split; [cbn [List.length]; lia |].
           pose proof (commits_today_bound r max Hmax).
           fold commits in H.
           cbn [List.length].
           destruct (commits >? 0) eqn:Ec; nia.
        -- intro Hs. apply Hall.
           apply (all_calls_succeed_oracle st); [congruence | exact Hs].
      * exists (mkRun 1 days total (seen ++ [cur])), st2, [].
        split; [reflexivity |]. split; [congruence |].
        split; [now left |].
        intro Hs.
        assert (Hs1 : all_calls_succeed st1)
          by (apply (all_calls_succeed_oracle st); auto).
        specialize (Hok Hs1). discriminate Hok.
    + apply Z.leb_gt in Ecmp.
      exists (mkRun 0 days total seen), st, [].
      split; [reflexivity |]. split; [reflexivity |]. split.
      * right. split; [reflexivity |].
        split; [apply steps_stop; lia |].
        split; [now rewrite app_nil_r |].
        cbn [List.length days_processed total_commits]. lia.
      * reflexivity.
Qed.

Lemma parse_date_flat (a : string) (d : Date) :
  parse_date a = Some d -> flat_date d.
Proof.
  intro H. apply parse_date_bounds, out_of_bounds_false in H.
  unfold flat_date. lia.
Qed.

(** [main] on arguments that pass the validation. *)
Lemma main_valid_arguments (fuel : nat) (prog arg1 arg2 arg3 : string)
      (s e : Date) (st : State) :
  parse_date arg1 = Some s -> parse_date arg2 = Some e ->
  1 <= Scan.atoi arg3 <= 50 -> compare_dates s e <= 0 ->
  main fuel [prog; arg1; arg2; arg3] st =
  bind init_git_repo
       (fun ok => if negb ok then exit_early
                  else day_loop fuel e (Scan.atoi arg3) s 0 0 []) st.
Proof.
  intros H1 H2 Hmax Hcmp. unfold main. rewrite H1, H2.
  replace (Scan.atoi arg3 <? 1) with false by lia.
  replace (Scan.atoi arg3 >? 50) with false by lia.
  replace (compare_dates s e >? 0) with false by lia.
  reflexivity.
Qed.

(** [main] on arguments that fail the validation: exit code 1 before any
    effect. *)
Lemma main_invalid_arguments (fuel : nat) (prog arg1 arg2 arg3 : string)
      (st : State) :
  (parse_date arg1 = None \/ parse_date arg2 = None \/
   Scan.atoi arg3 < 1 \/ Scan.atoi arg3 > 50 \/
   (exists s e, parse_date arg1 = Some s /\ parse_date arg2 = Some e /\
                compare_dates s e > 0)) ->
  main fuel [prog; arg1; arg2; arg3] st = (Done (mkRun 1 0 0 []), st).
Proof.
  intro H. unfold main, exit_early, ret.
  destruct (parse_date arg1) as [s |] eqn:E1; [| reflexivity].
  destruct (parse_date arg2) as [e |] eqn:E2; [| reflexivity].
  destruct ((Scan.atoi arg3 <? 1) || (Scan.atoi arg3 >? 50)) eqn:Emax;
    [reflexivity |].
  destruct (compare_dates s e >? 0) eqn:Ecmp; [reflexivity |].
  exfalso. apply orb_false_iff in Emax.
  destruct H as [H | [H | [H | [H | (s' & e' & Hs & He & H)]]]];
    try discriminate; try lia.
  injection Hs as <-. injection He as <-. lia.
Qed.

(** A whole run on valid arguments and enough fuel. *)
Lemma main_runs (fuel : nat) (prog arg1 arg2 arg3 : string)
      (s e : Date) (st : State) :
  parse_date arg1 = Some s -> parse_date arg2 = Some e ->
  1 <= Scan.atoi arg3 <= 50 -> compare_dates s e <= 0 ->
  (loop_fuel s e <= fuel)%nat ->
  exists run st' l,
    main fuel [prog; arg1; arg2; arg3] st = (Done run, st') /\
    (exit_code run = 1 \/
     (exit_code run = 0 /\ steps_to e s l /\
      visited run = l /\
      days_processed run = Z.of_nat (List.length l) /\
      0 <= total_commits run <= Scan.atoi arg3 * Z.of_nat (List.length l))) /\
    (all_calls_succeed st -> exit_code run = 0).
Proof.
  intros H1 H2 Hmax Hcmp Hfuel.
  rewrite (main_valid_arguments fuel prog arg1 arg2 arg3 s e st H1 H2 Hmax Hcmp).
  unfold bind.
  pose proof (init_git_repo_oracle st) as Ho.
  pose proof (init_git_repo_succeeds st) as Hok.
  destruct (init_git_repo st) as [ok st1]. cbn [fst snd] in Ho, Hok.
  destruct ok; cbn [negb].
  - destruct (day_loop_runs e (Scan.atoi arg3) (parse_date_flat _ _ H2)
                ltac:(lia) fuel s 0 0 [] st1 (parse_date_flat _ _ H1) Hfuel)
      as (run & st' & l & Hrun & _ & Hres & Hall).
    exists run, st', l. split; [exact Hrun |]. split.
    + destruct Hres as [Hr | (H0 & Hsteps & Hvis & Hdays & Htot)];
        [now left | right].
      repeat split; try assumption; lia.
    + intro Hs. apply Hall. now apply (all_calls_succeed_oracle st).
  - exists (mkRun 1 0 0 []), st1, []. split; [reflexivity |].
    split; [now left |].
    intro Hs. specialize (Hok Hs). discriminate Hok.
Qed.

(** C4. [main] exits with code 1 whenever the validation of its three
    arguments fails (a start or end date that [parse_date] rejects, a
    start date after the end date, a maximum outside 1..50), and with
    code 0 when the arguments are valid and every external call
    succeeds. *)
Theorem main_exit_code (fuel : nat) (prog arg1 arg2 arg3 : string)
    (st : State) :
  ((parse_date arg1 = None \/ parse_date arg2 = None \/
    Scan.atoi arg3 < 1 \/ Scan.atoi arg3 > 50 \/
    (exists s e, parse_date arg1 = Some s /\ parse_date arg2 = Some e /\
                 compare_dates s e > 0)) ->
   main fuel [prog; arg1; arg2; arg3] st = (Done (mkRun 1 0 0 []), st)) /\
  (forall s e,
     parse_date arg1 = Some s -> parse_date arg2 = Some e ->
     compare_dates s e <= 0 -> 1 <= Scan.atoi arg3 <= 50 ->
     all_calls_succeed st -> (loop_fuel s e <= fuel)%nat ->
     exists run st',
       main fuel [prog; arg1; arg2; arg3] st = (Done run, st') /\
       exit_code run = 0).
Proof.
  split.
  - apply main_invalid_arguments.
  - intros s e H1 H2 Hcmp Hmax Hs Hfuel.
    destruct (main_runs fuel prog arg1 arg2 arg3 s e st H1 H2 Hmax Hcmp Hfuel)
      as (run & st' & l & Hrun & _ & Hall).
    exists run, st'. split; [exact Hrun | now apply Hall].
Qed.

(** The summary of a run over a range that passed the validation. *)
Lemma main_range_summary (fuel : nat) (prog arg1 arg2 arg3 : string)
    (s e : Date) (st : State)
    (Hstart : parse_date arg1 = Some s) (Hend : parse_date arg2 = Some e)
    (Hrange : compare_dates s e <= 0)
    (Hmax : 1 <= Scan.atoi arg3 <= 50) (Hfuel : (loop_fuel s e <= fuel)%nat) :
  exists run st',
    main fuel [prog; arg1; arg2; arg3] st = (Done run, st') /\
    (all_calls_succeed st -> exit_code run = 0) /\
    (exit_code run = 0 ->
     NoDup (visited run) /\
     (forall d, In d (visited run) <->
                (d = s \/ calendar_day d) /\
                compare_dates s d <= 0 /\ compare_dates d e <= 0) /\
     days_processed run =
       Z.of_nat (List.length (calendar_range s e)) +
       (if calendar_dayb s then 0 else 1) /\
     0 <= total_commits run <= days_processed run * Scan.atoi arg3).
Proof.
  destruct (main_runs fuel prog arg1 arg2 arg3 s e st Hstart Hend Hmax Hrange Hfuel)
    as (run & st' & l & Hrun & Hres & Hall).
  exists run, st'. split; [exact Hrun |]. split; [exact Hall |].
  intro H0.
  destruct Hres as [H1 | (_ & Hsteps & Hvis & Hdays & Htot)]; [lia |].
  pose proof (parse_date_flat _ _ Hstart) as Hflat.
  destruct (steps_to_members_flat e s l Hsteps Hflat) as (Hnd & Hin).
  pose proof (steps_to_count e s l Hsteps Hflat
                (proj1 (compare_dates_le s e) Hrange)) as Hlen.
  rewrite Hvis. split; [exact Hnd |]. split.
  - intro d. rewrite Hin, !compare_dates_le. tauto.
  - rewrite Hdays. split; [exact Hlen | lia].
Qed.

(** C5 (as amended). On every range that passes the validation (both
    dates accepted by [parse_date], the start date not after the end
    date, a maximum in 1..50) the main loop, when it runs to the end, has
    visited exactly once the start date and each calendar day from the
    start to the end date.  [days_processed] is the number of the
    calendar days of the inclusive range when the start date is a
    calendar day, and one more when it is not; it does not depend on what
    was drawn for each day.  [total_commits] lies between 0 and
    [days_processed] times the maximum.  The loop does run to the end
    when every external call succeeds.  Calendar days are those of the
    civil calendar ([calendar_day]), not of the program's table. *)
Theorem main_visits_range (fuel : nat) (prog arg1 arg2 arg3 : string)
    (s e : Date) (st : State)
    (Hstart : parse_date arg1 = Some s) (Hend : parse_date arg2 = Some e)
    (Hrange : compare_dates s e <= 0)
    (Hmax : 1 <= Scan.atoi arg3 <= 50) (Hfuel : (loop_fuel s e <= fuel)%nat) :
  exists run st',
    main fuel [prog; arg1; arg2; arg3] st = (Done run, st') /\
    (all_calls_succeed st -> exit_code run = 0) /\
    (exit_code run = 0 ->
     NoDup (visited run) /\
     (forall d, In d (visited run) <->
                (d = s \/ calendar_day d) /\
                compare_dates s d <= 0 /\ compare_dates d e <= 0) /\
     days_processed run =
       Z.of_nat (List.length (calendar_range s e)) +
       (if calendar_dayb s then 0 else 1) /\
     0 <= total_commits run <= days_processed run * Scan.atoi arg3).
Proof.
  exact (main_range_summary fuel prog arg1 arg2 arg3 s e st
           Hstart Hend Hrange Hmax Hfuel).
Qed.

Lemma main_visits_range_witness :
  exists run st',
    main 10 ["cyclops"; "2024-01-01"; "2024-01-03"; "1"]%string (calm_world 1) =
    (Done run, st') /\
    (all_calls_succeed (calm_world 1) -> exit_code run = 0) /\
    (exit_code run = 0 ->
     NoDup (visited run) /\
     (forall d, In d (visited run) <->
                (d = mkDate 2024 1 1 \/ calendar_day d) /\
                compare_dates (mkDate 2024 1 1) d <= 0 /\
                compare_dates d (mkDate 2024 1 3) <= 0) /\
     days_processed run =
       Z.of_nat (List.length
                   (calendar_range (mkDate 2024 1 1) (mkDate 2024 1 3))) +
       (if calendar_dayb (mkDate 2024 1 1) then 0 else 1) /\
     0 <= total_commits run <= days_processed run * Scan.atoi "1"%string).
Proof.
  apply (main_visits_range 10 "cyclops"%string "2024-01-01"%string "2024-01-03"%string "1"%string
           (mkDate 2024 1 1) (mkDate 2024 1 3) (calm_world 1)).
  - reflexivity.
  - reflexivity.
  - cbn. lia.
  - change (Scan.atoi "1"%string) with 1. lia.
  - unfold loop_fuel, rank. cbn. lia.
Defined.

(** C5 as stated fails on a range that passes the validation but starts
    on a date that is no calendar day: from 2024-02-30 to 2024-03-01 the
    loop visits 2024-02-30 and counts 2 days, while the range holds one
    calendar day. *)
Lemma main_counts_february_30 :
  parse_date "2024-02-30" = Some (mkDate 2024 2 30) /\
  parse_date "2024-03-01" = Some (mkDate 2024 3 1) /\
  compare_dates (mkDate 2024 2 30) (mkDate 2024 3 1) <= 0 /\
  fst (main 10 ["cyclops"; "2024-02-30"; "2024-03-01"; "5"]%string
         (calm_world 0)) =
  Done (mkRun 0 2 0 [mkDate 2024 2 30; mkDate 2024 3 1]) /\
  calendar_range (mkDate 2024 2 30) (mkDate 2024 3 1) = [mkDate 2024 3 1] /\
  calendar_dayb (mkDate 2024 2 30) = false.
Proof.
  split; [reflexivity |]. split; [reflexivity |]. split; [cbn; lia |].
  split; [reflexivity |]. split; [vm_compute; reflexivity | reflexivity].
Qed.

Lemma main_exit_code_witness :
  main 0 ["cyclops"; "2024-01-05"; "2024-01-01"; "5"]%string (calm_world 1) =
  (Done (mkRun 1 0 0 []), calm_world 1) /\
  exists run st',
    main 10 ["cyclops"; "2024-01-01"; "2024-01-03"; "1"]%string (calm_world 1) =
    (Done run, st') /\ exit_code run = 0.
Proof.
  split.
  - apply (proj1 (main_exit_code 0 "cyclops"%string "2024-01-05"%string "2024-01-01"%string "5"%string
                    (calm_world 1))).
    right; right; right; right.
    exists (mkDate 2024 1 5), (mkDate 2024 1 1).
    split; [reflexivity |]. split; reflexivity.
  - apply (proj2 (main_exit_code 10 "cyclops"%string "2024-01-01"%string "2024-01-03"%string "1"%string
                    (calm_world 1)) (mkDate 2024 1 1) (mkDate 2024 1 3)).
    + reflexivity.
    + reflexivity.
    + cbn. lia.
    + change (Scan.atoi "1"%string) with 1. lia.
    + intro k. reflexivity.
    + unfold loop_fuel, rank. cbn. lia.
Defined.

(** A maximum that only fits after the conversion to [int]: the run is
    made with [max_commits_per_day = 1]. *)
Example main_wrapped_maximum :
  fst (main 10 ["cyclops"; "2024-01-01"; "2024-01-01"; "4294967297"]%string
         (calm_world 0)) =
  Done (mkRun 0 1 0 [mkDate 2024 1 1]).
Proof.
  reflexivity.
Qed.

(** The run of the specification: from 2024-01-01 to 2024-01-03 with at
    most one commit a day, whatever the generator and the outcomes of the
    external calls, a run that reaches the end has processed 3 days and
    made between 0 and 3 commits. *)
Example main_three_days (fuel : nat) (st : State) :
  (4 <= fuel)%nat ->
  exists run st',
    main fuel ["cyclops"; "2024-01-01"; "2024-01-03"; "1"]%string st = (Done run, st') /\
    (exit_code run = 0 ->
     days_processed run = 3 /\ 0 <= total_commits run <= 3).
Proof.
  intro Hfuel.
  destruct (main_range_summary fuel "cyclops"%string "2024-01-01"%string "2024-01-03"%string "1"%string
              (mkDate 2024 1 1) (mkDate 2024 1 3) st)
    as (run & st' & Hrun & _ & Hres);
    [reflexivity | reflexivity
     | cbn; lia | change (Scan.atoi "1"%string) with 1; lia | exact Hfuel |].
  exists run, st'. split; [exact Hrun |].
  intro H0. destruct (Hres H0) as (_ & _ & Hdays & Htot).
  change (Z.of_nat (List.length
            (calendar_range (mkDate 2024 1 1) (mkDate 2024 1 3))) +
          (if calendar_dayb (mkDate 2024 1 1) then 0 else 1)) with 3
    in Hdays.
  change (Scan.atoi "1"%string) with 1 in Htot. lia.
Qed.

End MainFacts.

(** ** More on the calendar *)

Module CalendarMore.

Import Calendar Range Effects CalendarFacts RangeFacts.

(** X1. [compare_dates] returns 0 exactly on equal dates. *)
Theorem compare_dates_zero_iff (a b : Date) :
  compare_dates a b = 0 <-> a = b.
Proof.
  split.
  - unfold compare_dates.
    destruct (year a =? year b) eqn:Ey; cbn [negb];
      [| destruct (year a <? year b); discriminate].
    destruct (month a =? month b) eqn:Em; cbn [negb];
      [| destruct (month a <? month b); discriminate].
    destruct (day a =? day b) eqn:Ed; cbn [negb];
      [| destruct (day a <? day b); discriminate].
    intros _. apply date_eq; now apply Z.eqb_eq.
  - intros <-. unfold compare_dates. now rewrite !Z.eqb_refl.
Qed.

(** X2. Swapping the arguments of [compare_dates] negates the result,
    which is always -1, 0 or 1. *)
Theorem compare_dates_swap (a b : Date) :
  compare_dates b a = - compare_dates a b /\
  (compare_dates a b = -1 \/ compare_dates a b = 0 \/ compare_dates a b = 1).
Proof.
  unfold compare_dates.
  rewrite (Z.eqb_sym (year b)), (Z.eqb_sym (month b)), (Z.eqb_sym (day b)).
  destruct (year a =? year b) eqn:Ey; cbn [negb].
  - destruct (month a =? month b) eqn:Em; cbn [negb].
    + destruct (day a =? day b) eqn:Ed; cbn [negb]; [lia |].
      destruct (day a <? day b) eqn:E1, (day b <? day a) eqn:E2; lia.
    + destruct (month a <? month b) eqn:E1, (month b <? month a) eqn:E2; lia.
  - destruct (year a <? year b) eqn:E1, (year b <? year a) eqn:E2; lia.
Qed.

(** X3. The order [compare_dates] decides is transitive. *)
Theorem compare_dates_transitive (a b c : Date)
    (Hab : compare_dates a b <= 0) (Hbc : compare_dates b c <= 0) :
  compare_dates a c <= 0.
Proof.
  rewrite compare_dates_le in *. unfold lex_le in *. lia.
Qed.

Lemma compare_dates_transitive_witness :
  compare_dates (mkDate 2023 12 31) (mkDate 2024 2 29) <= 0.
Proof.
  apply (compare_dates_transitive (mkDate 2023 12 31) (mkDate 2024 1 15)
           (mkDate 2024 2 29)); cbn; lia.
Defined.

(** X4. The lengths [days_in_month] gives to the twelve months of a year
    add up to 366 in a leap year and to 365 otherwise. *)
Theorem year_length_leap (y : Z) :
  year_length y = Some (if is_leap_year y then 366 else 365).
Proof.
  unfold year_length, days_in_month.
  generalize (is_leap_year y). intros []; reflexivity.
Qed.

(** X5. [days_in_month] is defined exactly for the months 1 to 12, gives
    between 28 and 31 days, 29 exactly for February of a leap year and 28
    exactly for February of another year. *)
Theorem days_in_month_table (m y : Z) :
  (days_in_month m y <> None <-> 1 <= m <= 12) /\
  (forall dim, days_in_month m y = Some dim -> 28 <= dim <= 31) /\
  (days_in_month m y = Some 29 <-> m = 2 /\ is_leap_year y = true) /\
  (days_in_month m y = Some 28 <-> m = 2 /\ is_leap_year y = false).
Proof.
  split; [| split; [| split]].
  - split.
    + intro H. destruct (days_in_month m y) as [dim |] eqn:E; [| congruence].
      now apply days_in_month_defined in E.
    + intros Hm. destruct (days_in_month_cases m y Hm) as (dim & -> & _).
      discriminate.
  - intros dim H. now apply days_in_month_defined in H.
  - split.
    + intro H. pose proof (days_in_month_defined _ _ _ H) as (Hm & _).
      assert (Hc : m = 1 \/ m = 2 \/ m = 3 \/ m = 4 \/ m = 5 \/ m = 6 \/
                   m = 7 \/ m = 8 \/ m = 9 \/ m = 10 \/ m = 11 \/ m = 12)
        by lia.
      unfold days_in_month in H.
      destruct (is_leap_year y);
        repeat (destruct Hc as [-> | Hc]); try subst m;
        cbn in H; try discriminate H; auto.
    + intros (-> & Hl). unfold days_in_month. now rewrite Hl.
  - split.
    + intro H. pose proof (days_in_month_defined _ _ _ H) as (Hm & _).
      assert (Hc : m = 1 \/ m = 2 \/ m = 3 \/ m = 4 \/ m = 5 \/ m = 6 \/
                   m = 7 \/ m = 8 \/ m = 9 \/ m = 10 \/ m = 11 \/ m = 12)
        by lia.
      unfold days_in_month in H.
      destruct (is_leap_year y);
        repeat (destruct Hc as [-> | Hc]); try subst m;
        cbn in H; try discriminate H; auto.
    + intros (-> & Hl). unfold days_in_month. now rewrite Hl.
Qed.

Lemma Some_eq {A} (x y : A) : Some x = Some y -> x = y.
Proof.
  congruence.
Qed.

(** X6. On calendar days [increment_date] is injective: two different
    days never have the same successor.  (Dates that only pass the flat
    bound of [parse_date] can collide: February 29 and February 30 of
    2024 both lead to March 1.) *)
Theorem increment_date_injective (a b : Date)
    (Ha : day_valid a) (Hb : day_valid b)
    (H : increment_date a = increment_date b) :
  a = b.
Proof.
  destruct Ha as (Hma & dima & Hda & Hdaya), Hb as (Hmb & dimb & Hdb & Hdayb).
  destruct (increment_date_cases a Hma)
    as (da & Hda' & _ & [(Hle & Ea) | [(Hgt & Hlt & Ea) | (Hgt & H12 & Ea)]]);
  destruct (increment_date_cases b Hmb)
    as (db & Hdb' & _ & [(Hle' & Eb) | [(Hgt' & Hlt' & Eb) | (Hgt' & H12' & Eb)]]);
    rewrite Ea, Eb in H; apply Some_eq in H;
    pose proof (f_equal year H) as Hy; pose proof (f_equal month H) as Hm;
    pose proof (f_equal day H) as Hd; cbn [year month day] in Hy, Hm, Hd;
    assert (da = dima) by congruence; assert (db = dimb) by congruence;
    subst da db; try lia.
  - apply date_eq; lia.
  - assert (Hym : year a = year b /\ month a = month b) by lia.
    destruct Hym as (Ey & Em). rewrite Ey, Em in Hda.
    assert (dima = dimb) by congruence. apply date_eq; lia.
  - assert (Hym : year a = year b /\ month a = month b) by lia.
    destruct Hym as (Ey & Em). rewrite Ey, Em in Hda.
    assert (dima = dimb) by congruence. apply date_eq; lia.
Qed.

Lemma day_valid_2024_02_29 : day_valid (mkDate 2024 2 29).
Proof.
  split; [cbn; lia |]. exists 29. split; [reflexivity | cbn; lia].
Defined.

Lemma increment_date_injective_witness : mkDate 2024 2 29 = mkDate 2024 2 29.
Proof.
  apply (increment_date_injective (mkDate 2024 2 29) (mkDate 2024 2 29));
    [exact day_valid_2024_02_29 | exact day_valid_2024_02_29 | reflexivity].
Defined.

Example increment_date_collision :
  increment_date (mkDate 2024 2 29) = increment_date (mkDate 2024 2 30).
Proof.
  reflexivity.
Qed.

Lemma compare_dates_less (a b : Date) :
  compare_dates a b = -1 <-> lex_lt a b.
Proof.
  unfold compare_dates, lex_lt.
  destruct (year a =? year b) eqn:Ey; cbn [negb].
  - apply Z.eqb_eq in Ey.
    destruct (month a =? month b) eqn:Em; cbn [negb].
    + apply Z.eqb_eq in Em.
      destruct (day a =? day b) eqn:Ed; cbn [negb].
      * apply Z.eqb_eq in Ed. lia.
      * apply Z.eqb_neq in Ed. destruct (day a <? day b) eqn:El; lia.
    + apply Z.eqb_neq in Em. destruct (month a <? month b) eqn:El; lia.
  - apply Z.eqb_neq in Ey. destruct (year a <? year b) eqn:El; lia.
Qed.

(** X7. [increment_date] gives the next calendar day: no calendar day
    lies strictly between a calendar day and its increment. *)
Theorem increment_date_next_day (cur next d : Date)
    (Hcur : day_valid cur) (Hd : day_valid d)
    (Hnext : increment_date cur = Some next)
    (Hlt : compare_dates cur d = -1) :
  compare_dates next d <= 0.
Proof.
  apply compare_dates_le.
  apply (increment_date_no_gap cur next d Hcur Hd Hnext).
  now apply compare_dates_less.
Qed.

Lemma increment_date_next_day_witness :
  compare_dates (mkDate 2024 3 1) (mkDate 2024 3 1) <= 0.
Proof.
  apply (increment_date_next_day (mkDate 2024 2 29) (mkDate 2024 3 1)
           (mkDate 2024 3 1)).
  - exact day_valid_2024_02_29.
  - split; [cbn; lia |]. exists 31. split; [reflexivity | cbn; lia].
  - reflexivity.
  - reflexivity.
Defined.

(** X8. The ends of February and of the year, for every year: February 28
    is followed by February 29 in a leap year and by March 1 otherwise,
    February 29 by March 1, December 31 by January 1 of the next year. *)
Theorem increment_date_month_ends (y : Z) :
  increment_date (mkDate y 2 28) =
    Some (if is_leap_year y then mkDate y 2 29 else mkDate y 3 1) /\
  increment_date (mkDate y 2 29) = Some (mkDate y 3 1) /\
  increment_date (mkDate y 12 31) = Some (mkDate (y + 1) 1 1).
Proof.
  unfold increment_date, days_in_month. cbn [year month day].
  generalize (is_leap_year y). intros []; repeat split; reflexivity.
Qed.

Lemma is_leap_year_iff (y : Z) : is_leap_year y = true <-> gregorian_leap y.
Proof.
  unfold is_leap_year, gregorian_leap.
  rewrite orb_true_iff, andb_true_iff, negb_true_iff.
  rewrite <- (rem_zero_divide y 4), <- (rem_zero_divide y 400) by lia.
  rewrite <- (rem_zero_divide y 100) by lia.
  rewrite not_true_iff_false. tauto.
Qed.

Lemma divide_shift (d k y : Z) : (d | k) -> ((d | y + k) <-> (d | y)).
Proof.
  intro Hk. split; intro H.
  - apply (Z.divide_add_cancel_r d k y); [exact Hk |].
    now rewrite Z.add_comm.
  - now apply Z.divide_add_r.
Qed.

(** X24. [is_leap_year] repeats every 400 years, also on negative years
    (where C's [%] gives negative remainders). *)
Theorem is_leap_year_period (y : Z) :
  is_leap_year (y + 400) = is_leap_year y.
Proof.
  apply eq_true_iff_eq. rewrite !is_leap_year_iff. unfold gregorian_leap.
  rewrite (divide_shift 4 400 y), (divide_shift 100 400 y),
    (divide_shift 400 400 y).
  - tauto.
  - exists 1. reflexivity.
  - exists 4. reflexivity.
  - exists 100. reflexivity.
Qed.

End CalendarMore.

(** ** Printing and reading dates *)

Module FormatFacts.

Import Scan Calendar World Cyclops Range Format.
Import ScanFacts CalendarFacts WorldFacts RangeFacts.

Lemma length_append (a b : string) :
  String.length (a ++ b) = (String.length a + String.length b)%nat.
Proof.
  induction a as [| c a IH]; cbn; [reflexivity | now rewrite IH].
Qed.

Lemma substring_whole (s : string) :
  forall n, (String.length s <= n)%nat -> substring 0 n s = s.
Proof.
  induction s as [| c s IH]; intros [| n] H; cbn in *; try reflexivity.
  - lia.
  - rewrite IH by lia. reflexivity.
Qed.

Lemma snprintf_whole (size : Z) (text : string) :
  Z.of_nat (String.length text) < size -> snprintf size text = text.
Proof.
  intro H. unfold snprintf. apply substring_whole. lia.
Qed.

(** The directives [%04d] and [%02d] on every value that fits the width:
    checked on the whole range. *)
Lemma check_field_4_all :
  forallb (check_field 4) (Zseq 0 (Z.to_nat 10000)) = true.
Proof.
  vm_compute. reflexivity.
Qed.

Lemma check_field_2_all :
  forallb (check_field 2) (Zseq 0 (Z.to_nat 100)) = true.
Proof.
  vm_compute. reflexivity.
Qed.

Lemma check_field_4 (v : Z) : 0 <= v <= 9999 -> check_field 4 v = true.
Proof.
  intro H. apply (proj1 (forallb_forall _ _) check_field_4_all).
  apply In_Zseq. lia.
Qed.

Lemma check_field_2 (v : Z) : 0 <= v <= 99 -> check_field 2 v = true.
Proof.
  intro H. apply (proj1 (forallb_forall _ _) check_field_2_all).
  apply In_Zseq. lia.
Qed.

Lemma check_field_4_shape (v : Z) :
  check_field 4 v = true ->
  exists a b c d,
    fmt_0d 4 v = String a (String b (String c (String d EmptyString))) /\
    isdigit a = true /\ isdigit b = true /\ isdigit c = true /\
    isdigit d = true /\ number_of [a; b; c; d] = v.
Proof.
  unfold check_field. intro H.
  apply andb_true_iff in H. destruct H as (H & Hn).
  apply andb_true_iff in H. destruct H as (Hl & Hd).
  apply Z.eqb_eq in Hn. apply Nat.eqb_eq in Hl.
  destruct (fmt_0d 4 v) as [| a [| b [| c [| d [| ? ?]]]]]; try discriminate Hl.
  unfold all_digits in Hd. cbn in Hd. rewrite !andb_true_iff in Hd.
  exists a, b, c, d. cbn in Hn. tauto.
Qed.

Lemma check_field_2_shape (v : Z) :
  check_field 2 v = true ->
  exists a b,
    fmt_0d 2 v = String a (String b EmptyString) /\
    isdigit a = true /\ isdigit b = true /\ number_of [a; b] = v.
Proof.
  unfold check_field. intro H.
  apply andb_true_iff in H. destruct H as (H & Hn).
  apply andb_true_iff in H. destruct H as (Hl & Hd).
  apply Z.eqb_eq in Hn. apply Nat.eqb_eq in Hl.
  destruct (fmt_0d 2 v) as [| a [| b [| ? ?]]]; try discriminate Hl.
  unfold all_digits in Hd. cbn in Hd. rewrite !andb_true_iff in Hd.
  exists a, b. cbn in Hn. tauto.
Qed.

(** A printed date has the shape [YYYY-MM-DD] and writes its own
    fields. *)
Lemma format_date_shape (d : Date) :
  0 <= year d <= 9999 -> 0 <= month d <= 99 -> 0 <= day d <= 99 ->
  iso_shape (format_date d) = true /\ iso_fields (format_date d) = d /\
  String.length (format_date d) = 10%nat.
Proof.
  intros Hy Hm Hd.
  destruct (check_field_4_shape _ (check_field_4 _ Hy))
    as (y1 & y2 & y3 & y4 & Ey & Hy1 & Hy2 & Hy3 & Hy4 & Ny).
  destruct (check_field_2_shape _ (check_field_2 _ Hm))
    as (m1 & m2 & Em & Hm1 & Hm2 & Nm).
  destruct (check_field_2_shape _ (check_field_2 _ Hd))
    as (d1 & d2 & Ed & Hd1 & Hd2 & Nd).
  unfold format_date. rewrite Ey, Em, Ed. cbn [append iso_shape iso_fields].
  rewrite Hy1, Hy2, Hy3, Hy4, Hm1, Hm2, Hd1, Hd2, Ny, Nm, Nd.
  split; [reflexivity |]. split; [| reflexivity].
  destruct d; reflexivity.
Qed.

(** [parse_date] on a string that starts with a date of the shape
    [YYYY-MM-DD] and does not go on with a digit. *)
Lemma parse_date_iso_prefix (s t : string) :
  iso_shape s = true -> no_leading_digit t ->
  parse_date (s ++ t) =
  if out_of_bounds (iso_fields s) then None else Some (iso_fields s).
Proof.
  intros H Ht.
  destruct s as [| y1 [| y2 [| y3 [| y4 [| a [| m1 [| m2 [| b [| d1 [| d2 [| ? ?]]]]]]]]]]];
    try discriminate H.
  cbn [iso_shape] in H. repeat rewrite andb_true_iff in H.
  destruct H as (((((((((Hy1 & Hy2) & Hy3) & Hy4) & Ha) & Hm1) & Hm2) & Hb) & Hd1) & Hd2).
  apply Ascii.eqb_eq in Ha, Hb. subst a b.
  unfold parse_date, sscanf_d_d_d. cbn [append].
  change (String y1 (String y2 (String y3 (String y4 (String "-"
            (String m1 (String m2 (String "-" (String d1 (String d2 t))))))))))
    with (string_of_list_ascii [y1; y2; y3; y4] ++
          String "-" (String m1 (String m2 (String "-" (String d1 (String d2 t))))))%string.
  rewrite scan_int_run;
    [| repeat constructor; assumption | reflexivity | reflexivity].
  cbn [match_char]. rewrite Ascii.eqb_refl.
  change (String m1 (String m2 (String "-" (String d1 (String d2 t)))))
    with (string_of_list_ascii [m1; m2] ++
          String "-" (String d1 (String d2 t)))%string.
  rewrite scan_int_run;
    [| repeat constructor; assumption | reflexivity | reflexivity].
  cbn [match_char]. rewrite Ascii.eqb_refl.
  change (String d1 (String d2 t))
    with (string_of_list_ascii [d1; d2] ++ t)%string.
  rewrite scan_int_run;
    [| repeat constructor; assumption | exact Ht | reflexivity].
  reflexivity.
Qed.

(** X9. Reading back what the program prints: on a date printed with
    ["%04d-%02d-%02d"] (fields that fit the widths), [parse_date] returns
    that very date when its fields pass the bounds, and fails otherwise;
    the printed string has the shape [YYYY-MM-DD]. *)
Theorem parse_date_format_date (d : Date)
    (Hy : 0 <= year d <= 9999) (Hm : 0 <= month d <= 99)
    (Hd : 0 <= day d <= 99) :
  iso_shape (format_date d) = true /\
  parse_date (format_date d) = if out_of_bounds d then None else Some d.
Proof.
  destruct (format_date_shape d Hy Hm Hd) as (Hs & Hf & _).
  split; [exact Hs |].
  rewrite (parse_date_iso_shape _ Hs), Hf. reflexivity.
Qed.

Lemma parse_date_format_date_witness :
  iso_shape (format_date (mkDate 2024 2 29)) = true /\
  parse_date (format_date (mkDate 2024 2 29)) =
  if out_of_bounds (mkDate 2024 2 29) then None else Some (mkDate 2024 2 29).
Proof.
  apply (parse_date_format_date (mkDate 2024 2 29)); cbn; lia.
Defined.

(** X10. [parse_date] ignores what follows a date: after a string of the
    shape [YYYY-MM-DD], any text that does not start with a digit leaves
    the result unchanged. *)
Theorem parse_date_ignores_tail (s t : string)
    (Hs : iso_shape s = true) (Ht : no_leading_digit t) :
  parse_date (s ++ t) = parse_date s.
Proof.
  rewrite (parse_date_iso_prefix s t Hs Ht).
  now rewrite (parse_date_iso_shape s Hs).
Qed.

Lemma parse_date_ignores_tail_witness :
  parse_date ("2024-01-05" ++ " 09:01:00") = parse_date "2024-01-05".
Proof.
  apply (parse_date_ignores_tail "2024-01-05" " 09:01:00");
    [reflexivity | reflexivity].
Defined.

Lemma scan_int_skip_spaces (w : list ascii) (s : string) :
  Forall (fun c => isspace c = true) w ->
  scan_int (string_of_list_ascii w ++ s) = scan_int s.
Proof.
  intro Hw. unfold scan_int. f_equal.
  induction Hw as [| c w Hc Hw IH]; cbn; [reflexivity |].
  rewrite Hc, IH. reflexivity.
Qed.

(** X11. [parse_date] and [atoi] skip leading white space: blanks, tabs
    and line ends in front of an argument do not change the result. *)
Theorem leading_space_skipped (w : list ascii) (s : string)
    (Hw : Forall (fun c => isspace c = true) w) :
  parse_date (string_of_list_ascii w ++ s) = parse_date s /\
  atoi (string_of_list_ascii w ++ s) = atoi s.
Proof.
  unfold parse_date, sscanf_d_d_d, atoi.
  rewrite (scan_int_skip_spaces w s Hw). split; reflexivity.
Qed.

Lemma leading_space_skipped_witness :
  parse_date (string_of_list_ascii [" "%char; " "%char] ++ "2024-01-05") =
  parse_date "2024-01-05" /\
  atoi (string_of_list_ascii [" "%char; " "%char] ++ "2024-01-05") =
  atoi "2024-01-05".
Proof.
  apply (leading_space_skipped [" "%char; " "%char] "2024-01-05").
  repeat constructor.
Defined.

Lemma isdigit_value (c : ascii) :
  isdigit c = true -> 0 <= digit_value c <= 9.
Proof.
  unfold isdigit, digit_value. intro H.
  apply andb_true_iff in H. destruct H as (H1 & H2).
  apply Nat.leb_le in H1. apply Nat.leb_le in H2. lia.
Qed.

Lemma digit_value_inj (a b : ascii) :
  isdigit a = true -> isdigit b = true ->
  digit_value a = digit_value b -> a = b.
Proof.
  intros Ha Hb H. unfold digit_value in H.
  assert (Hn : nat_of_ascii a = nat_of_ascii b) by lia.
  rewrite <- (ascii_nat_embedding a), <- (ascii_nat_embedding b).
  now rewrite Hn.
Qed.

(** X23. Printing what was read: for a string of the shape [YYYY-MM-DD]
    that [parse_date] accepts, printing the date it returns with
    ["%04d-%02d-%02d"] gives the string back. *)
Theorem format_date_parse_date (s : string) (d : Date)
    (Hs : iso_shape s = true) (Hp : parse_date s = Some d) :
  format_date d = s.
Proof.
  rewrite (parse_date_iso_shape s Hs) in Hp.
  destruct (out_of_bounds (iso_fields s)); [discriminate |].
  injection Hp as <-.
  destruct s as [| y1 [| y2 [| y3 [| y4 [| a [| m1 [| m2 [| b [| d1 [| d2 [| ? ?]]]]]]]]]]];
    try discriminate Hs.
  cbn [iso_shape] in Hs. repeat rewrite andb_true_iff in Hs.
  destruct Hs as (((((((((Hy1 & Hy2) & Hy3) & Hy4) & Ha) & Hm1) & Hm2) & Hb) & Hd1) & Hd2).
  apply Ascii.eqb_eq in Ha, Hb. subst a b.
  cbn [iso_fields]. unfold format_date. cbn [year month day].
  pose proof (isdigit_value _ Hy1). pose proof (isdigit_value _ Hy2).
  pose proof (isdigit_value _ Hy3). pose proof (isdigit_value _ Hy4).
  pose proof (isdigit_value _ Hm1). pose proof (isdigit_value _ Hm2).
  pose proof (isdigit_value _ Hd1). pose proof (isdigit_value _ Hd2).
  destruct (check_field_4_shape (number_of [y1; y2; y3; y4]))
    as (a & b & c & e & -> & Ha & Hb & Hc & He & Ny);
    [apply check_field_4; unfold number_of; cbn [fold_left]; lia |].
  destruct (check_field_2_shape (number_of [m1; m2]))
    as (f & g & -> & Hf & Hg & Nm);
    [apply check_field_2; unfold number_of; cbn [fold_left]; lia |].
  destruct (check_field_2_shape (number_of [d1; d2]))
    as (h & i & -> & Hh & Hi & Nd);
    [apply check_field_2; unfold number_of; cbn [fold_left]; lia |].
  pose proof (isdigit_value _ Ha). pose proof (isdigit_value _ Hb).
  pose proof (isdigit_value _ Hc). pose proof (isdigit_value _ He).
  pose proof (isdigit_value _ Hf). pose proof (isdigit_value _ Hg).
  pose proof (isdigit_value _ Hh). pose proof (isdigit_value _ Hi).
  unfold number_of in Ny, Nm, Nd. cbn [fold_left] in Ny, Nm, Nd.
  rewrite (digit_value_inj a y1), (digit_value_inj b y2),
    (digit_value_inj c y3), (digit_value_inj e y4),
    (digit_value_inj f m1), (digit_value_inj g m2),
    (digit_value_inj h d1), (digit_value_inj i d2); try assumption; try lia.
  reflexivity.
Qed.

Lemma format_date_parse_date_witness :
  format_date (mkDate 2024 2 29) = "2024-02-29"%string.
Proof.
  apply (format_date_parse_date "2024-02-29" (mkDate 2024 2 29));
    reflexivity.
Defined.

End FormatFacts.

(** ** More on commit generation *)

Module CommitMore.

Import Scan Calendar World Cyclops Range Format Effects.
Import ScanFacts CalendarFacts WorldFacts CommitFacts RangeFacts FormatFacts.

Lemma check_field_length (width : nat) (v : Z) :
  check_field width v = true -> String.length (fmt_0d width v) = width.
Proof.
  unfold check_field. intro H.
  apply andb_true_iff in H. destruct H as (H & _).
  apply andb_true_iff in H. destruct H as (H & _).
  now apply Nat.eqb_eq in H.
Qed.

Lemma format_timestamp_length (d : Date) (hour minute : Z) :
  0 <= year d <= 9999 -> 0 <= month d <= 99 -> 0 <= day d <= 99 ->
  0 <= hour <= 99 -> 0 <= minute <= 99 ->
  String.length (format_timestamp d hour minute) = 19%nat.
Proof.
  intros Hy Hm Hd Hh Hmin. unfold format_timestamp.
  rewrite !length_append.
  destruct (format_date_shape d Hy Hm Hd) as (_ & _ & ->).
  rewrite (check_field_length 2 hour (check_field_2 _ Hh)).
  rewrite (check_field_length 2 minute (check_field_2 _ Hmin)).
  reflexivity.
Qed.

Lemma messages_short (msg : string) :
  In msg messages -> (String.length msg <= 34)%nat.
Proof.
  intro H.
  assert (Hall : forallb (fun m => (String.length m <=? 34)%nat) messages = true)
    by reflexivity.
  rewrite forallb_forall in Hall. apply Nat.leb_le. now apply Hall.
Qed.

(** X12. The buffers of [create_commit] are large enough: for a date
    whose fields fit the printed widths, an hour and a minute below 100
    and a message of the catalog, the time stamp has 19 characters, and
    neither [date_str] (32 bytes) nor [command] (512 bytes) is cut by
    [snprintf]. *)
Theorem commit_command_not_truncated (d : Date) (hour minute : Z)
    (msg : string)
    (Hy : 0 <= year d <= 9999) (Hm : 0 <= month d <= 99)
    (Hd : 0 <= day d <= 99) (Hh : 0 <= hour <= 99)
    (Hmin : 0 <= minute <= 99) (Hmsg : In msg messages) :
  String.length (format_timestamp d hour minute) = 19%nat /\
  snprintf MAX_DATE_LENGTH (format_timestamp d hour minute) =
    format_timestamp d hour minute /\
  (String.length (command_text (GitCommit d hour minute msg)) <= 120)%nat /\
  command_string (GitCommit d hour minute msg) =
    command_text (GitCommit d hour minute msg).
Proof.
  pose proof (format_timestamp_length d hour minute Hy Hm Hd Hh Hmin) as Hlen.
  pose proof (messages_short msg Hmsg) as Hshort.
  assert (Hdate : snprintf MAX_DATE_LENGTH (format_timestamp d hour minute) =
                  format_timestamp d hour minute).
  { apply snprintf_whole. rewrite Hlen. reflexivity. }
  assert (Htext : (String.length (command_text (GitCommit d hour minute msg))
                   <= 120)%nat).
  { unfold command_text. rewrite Hdate, !length_append, Hlen.
    change (String.length dquote) with 1%nat.
    cbn [String.length]. lia. }
  split; [exact Hlen |]. split; [exact Hdate |]. split; [exact Htext |].
  unfold command_string. apply snprintf_whole. unfold MAX_COMMAND_LENGTH. lia.
Qed.

Lemma commit_command_not_truncated_witness :
  String.length (format_timestamp (mkDate 2024 2 29) 21 59) = 19%nat /\
  snprintf MAX_DATE_LENGTH (format_timestamp (mkDate 2024 2 29) 21 59) =
    format_timestamp (mkDate 2024 2 29) 21 59 /\
  (String.length
     (command_text (GitCommit (mkDate 2024 2 29) 21 59
                      "Implement rate limiting middleware")) <= 120)%nat /\
  command_string (GitCommit (mkDate 2024 2 29) 21 59
                    "Implement rate limiting middleware") =
  command_text (GitCommit (mkDate 2024 2 29) 21 59
                  "Implement rate limiting middleware").
Proof.
  apply (commit_command_not_truncated (mkDate 2024 2 29) 21 59
           "Implement rate limiting middleware"); cbn; try lia.
  tauto.
Defined.

Lemma catalog_entry (i : nat) :
  (i < 24)%nat ->
  In (nth i messages EmptyString) messages /\
  substring 0 (Z.to_nat (MAX_MESSAGE_LENGTH - 1)) (nth i messages EmptyString) =
  nth i messages EmptyString.
Proof.
  intro Hi.
  assert (Hin : In (nth i messages EmptyString) messages)
    by (apply nth_In; exact Hi).
  split; [exact Hin |].
  apply substring_whole. pose proof (messages_short _ Hin).
  unfold MAX_MESSAGE_LENGTH. lia.
Qed.

(** X13. [generate_commit_message] returns a message of the catalog,
    whole (the 256-byte buffer cuts none), chosen by [rand() % 24], and
    draws exactly one random number; every message of the catalog is
    returned for some generator state. *)
Theorem generate_commit_message_catalog :
  (forall st, rng_ok (st_rng st) ->
     In (fst (generate_commit_message MAX_MESSAGE_LENGTH st)) messages /\
     fst (generate_commit_message MAX_MESSAGE_LENGTH st) =
       nth (Z.to_nat (Z.rem (draw st 0) 24)) messages EmptyString /\
     snd (generate_commit_message MAX_MESSAGE_LENGTH st) = snd (rand st)) /\
  (forall msg, In msg messages ->
     exists st, rng_ok (st_rng st) /\
                fst (generate_commit_message MAX_MESSAGE_LENGTH st) = msg).
Proof.
  split.
  - intros st Hg.
    unfold generate_commit_message, bind, ret, rand, draw.
    cbn [fst snd Nat.add].
    change (Z.of_nat (List.length messages)) with 24.
    set (r := tape (st_rng st) (pos (st_rng st))).
    assert (Hr : 0 <= r) by apply Hg.
    pose proof (rem_range r 24 Hr ltac:(lia)) as Hrem.
    destruct (catalog_entry (Z.to_nat (Z.rem r 24)) ltac:(lia)) as (Hin & Hsub).
    rewrite Hsub. split; [exact Hin |]. split; reflexivity.
  - intros msg Hin.
    destruct (In_nth _ _ EmptyString Hin) as (i & Hi & Hnth).
    change (List.length messages) with 24%nat in Hi.
    exists (calm_world (Z.of_nat i)).
    split; [intro k; unfold calm_world, rng_const; cbn; lia |].
    unfold generate_commit_message, bind, ret, rand, calm_world, rng_const.
    cbn [fst snd st_rng tape pos].
    change (Z.of_nat (List.length messages)) with 24.
    rewrite Z.rem_small by lia. rewrite Nat2Z.id.
    destruct (catalog_entry i Hi) as (_ & ->). exact Hnth.
Qed.

(** X14. [create_commit] returns 1 exactly when its three external calls
    succeed: opening the activity file, [git add] and [git commit]. *)
Theorem create_commit_succeeds_iff (date : Date) (n : Z) (st : State) :
  fst (create_commit date n st) = true <->
  st_oracle st (st_calls st) = true /\
  st_oracle st (S (st_calls st)) = true /\
  st_oracle st (S (S (st_calls st))) = true.
Proof.
  rewrite create_commit_run.
  destruct (st_oracle st (st_calls st));
    [| cbn; split; [discriminate | intros (H & _); discriminate H]].
  destruct (st_oracle st (S (st_calls st)));
    [| cbn; split; [discriminate | intros (_ & H & _); discriminate H]].
  cbn [fst]. tauto.
Qed.

(** X15. [create_commit] does not roll back.  When the activity file
    cannot be opened, nothing is written, no command is run and no random
    number is drawn.  Once it is open, one record is appended whatever
    happens next: when [git add] or [git commit] then fails, the record
    stays although no commit was created. *)
Theorem create_commit_no_rollback (date : Date) (n : Z) (st : State) :
  (st_oracle st (st_calls st) = false ->
   fst (create_commit date n st) = false /\
   st_file (snd (create_commit date n st)) = st_file st /\
   st_commands (snd (create_commit date n st)) = st_commands st /\
   st_rng (snd (create_commit date n st)) = st_rng st) /\
  (st_oracle st (st_calls st) = true ->
   (exists e, st_file (snd (create_commit date n st)) = e :: st_file st /\
              log_date e = date /\ log_number e = n) /\
   (fst (create_commit date n st) = false ->
    created (st_commands (snd (create_commit date n st))) =
    created (st_commands st))).
Proof.
  rewrite create_commit_run. split; intro Ho; rewrite Ho.
  - repeat split; reflexivity.
  - destruct (st_oracle st (S (st_calls st))).
    + split; [eexists; repeat split; reflexivity |].
      cbn [fst snd]. intros ->. reflexivity.
    + split; [eexists; repeat split; reflexivity |].
      intros _. reflexivity.
Qed.

(** X16. [init_git_repo].  With a [.git] directory present it does
    nothing and succeeds.  Without one it runs [git init]: on failure it
    returns 0 and runs nothing else; on success it runs the two
    [git config] commands and returns 1 whatever their outcome. *)
Theorem init_git_repo_behaviour (st : State) :
  (st_git_dir st = true -> init_git_repo st = (true, st)) /\
  (st_git_dir st = false ->
   fst (init_git_repo st) = st_oracle st (st_calls st) /\
   st_file (snd (init_git_repo st)) = st_file st /\
   st_commands (snd (init_git_repo st)) =
   if st_oracle st (st_calls st)
   then (GitConfigEmail, st_oracle st (S (S (st_calls st))))
          :: (GitConfigName, st_oracle st (S (st_calls st)))
          :: (GitInit, true) :: st_commands st
   else (GitInit, false) :: st_commands st).
Proof.
  unfold init_git_repo, bind, stat_git_missing, system, external, ret.
  split; intro H; rewrite H; cbn.
  - reflexivity.
  - destruct (st_oracle st (st_calls st)); cbn; repeat split; reflexivity.
Qed.

Lemma generate_commit_message_catalog_witness :
  In (fst (generate_commit_message MAX_MESSAGE_LENGTH (calm_world 25))) messages /\
  fst (generate_commit_message MAX_MESSAGE_LENGTH (calm_world 25)) =
    nth (Z.to_nat (Z.rem (draw (calm_world 25) 0) 24)) messages EmptyString /\
  snd (generate_commit_message MAX_MESSAGE_LENGTH (calm_world 25)) =
    snd (rand (calm_world 25)).
Proof.
  apply (proj1 generate_commit_message_catalog (calm_world 25)).
  intro k. unfold calm_world, rng_const. cbn. lia.
Defined.

(** A world in which the activity file opens and [git add] fails. *)
Lemma create_commit_no_rollback_witness :
  (exists e,
     st_file (snd (create_commit (mkDate 2024 1 1) 1
        (mkState (rng_const 1) true (fun k => Nat.eqb k 0) 0 [] []))) = [e] /\
     log_date e = mkDate 2024 1 1 /\ log_number e = 1) /\
  (fst (create_commit (mkDate 2024 1 1) 1
          (mkState (rng_const 1) true (fun k => Nat.eqb k 0) 0 [] [])) = false ->
   created (st_commands (snd (create_commit (mkDate 2024 1 1) 1
          (mkState (rng_const 1) true (fun k => Nat.eqb k 0) 0 [] [])))) =
   created []).
Proof.
  apply (proj2 (create_commit_no_rollback (mkDate 2024 1 1) 1
                  (mkState (rng_const 1) true (fun k => Nat.eqb k 0) 0 [] []))).
  reflexivity.
Defined.

(** A world without a repository in which [git init] succeeds and both
    [git config] calls fail. *)
Lemma init_git_repo_behaviour_witness :
  fst (init_git_repo
         (mkState (rng_const 1) false (fun k => Nat.eqb k 0) 0 [] [])) = true /\
  st_file (snd (init_git_repo
         (mkState (rng_const 1) false (fun k => Nat.eqb k 0) 0 [] []))) = [] /\
  st_commands (snd (init_git_repo
         (mkState (rng_const 1) false (fun k => Nat.eqb k 0) 0 [] []))) =
  [(GitConfigEmail, false); (GitConfigName, false); (GitInit, true)].
Proof.
  apply (proj2 (init_git_repo_behaviour
                  (mkState (rng_const 1) false (fun k => Nat.eqb k 0) 0 [] []))).
  reflexivity.
Defined.

End CommitMore.

(** ** More on the driver *)

Module MainMore.

Import Scan Calendar World Cyclops Range Format Effects.
Import ScanFacts CalendarFacts WorldFacts CommitFacts RangeFacts MainFacts.

(** *** Counting records and commits *)

Lemma grown_refl (st : State) : grown st st 0 0.
Proof.
  unfold grown. lia.
Qed.

Lemma grown_trans (st st1 st2 : State) (a b c d : nat) :
  grown st st1 a b -> grown st1 st2 c d -> grown st st2 (a + c) (b + d).
Proof.
  unfold grown. lia.
Qed.

Lemma create_commit_counts (date : Date) (n : Z) (st : State) :
  exists nr nc,
    grown st (snd (create_commit date n st)) nr nc /\
    (nc <= nr <= nc + 1)%nat /\
    (fst (create_commit date n st) = true -> nr = 1%nat /\ nc = 1%nat).
Proof.
  rewrite create_commit_run. unfold grown, records, commits, created.
  destruct (st_oracle st (st_calls st)).
  - destruct (st_oracle st (S (st_calls st))).
    + destruct (st_oracle st (S (S (st_calls st)))).
      * exists 1%nat, 1%nat. cbn. repeat split; lia.
      * exists 1%nat, 0%nat. cbn. repeat split; try lia; discriminate.
    + exists 1%nat, 0%nat. cbn. repeat split; try lia; discriminate.
  - exists 0%nat, 0%nat. cbn. repeat split; try lia; discriminate.
Qed.

Lemma commit_loop_counts (date : Date) (k : nat) :
  forall i st,
    exists nr nc,
      grown st (snd (commit_loop k i date st)) nr nc /\
      (nc <= nr <= nc + 1)%nat /\
      (fst (commit_loop k i date st) = true -> nr = k /\ nc = k).
Proof.
  induction k as [| k IH]; intros i st; cbn [commit_loop].
  - exists 0%nat, 0%nat. split; [apply grown_refl |]. cbn. lia.
  - unfold bind.
    destruct (create_commit_counts date i st) as (nr1 & nc1 & Hg1 & Hb1 & Hok1).
    destruct (create_commit date i st) as [ok st1]. cbn [fst snd] in *.
    destruct ok; cbn [negb].
    + destruct (Hok1 eq_refl) as (-> & ->).
      destruct (IH (i + 1) st1) as (nr2 & nc2 & Hg2 & Hb2 & Hok2).
      exists (1 + nr2)%nat, (1 + nc2)%nat.
      split; [now apply (grown_trans st st1) |]. split; [lia |].
      intro H. specialize (Hok2 H). lia.
    + exists nr1, nc1. split; [exact Hg1 |]. split; [exact Hb1 |].
      cbn. discriminate.
Qed.

Lemma day_loop_counts (e : Date) (max : Z) (fuel : nat) :
  forall cur total days seen st out st',
    day_loop fuel e max cur total days seen st = (out, st') ->
    exists nr nc,
      grown st st' nr nc /\
      (nc <= nr <= nc + 1)%nat /\
      (forall run,
         out = Done run -> exit_code run = 0 ->
         nr = nc /\ total_commits run = total + Z.of_nat nc).
Proof.
  induction fuel as [| fuel IH]; intros cur total days seen st out st' H;
    cbn [day_loop] in H.
  - injection H as <- <-.
    exists 0%nat, 0%nat. split; [apply grown_refl |]. split; [lia |].
    discriminate.
  - destruct (compare_dates cur e <=? 0).
    + unfold bind at 1 in H. cbn [rand] in H.
      set (r := tape (st_rng st) (pos (st_rng st))) in H.
      set (st1 := mkState _ _ _ _ _ _) in H.
      set (today := Z.rem r (max + 1)) in H.
      assert (H01 : grown st st1 0 0)
        by (unfold grown, records, commits, st1; cbn [st_file st_commands]; lia).
      unfold bind at 1 in H.
      assert (Hin : exists nr nc,
        grown st1 (snd ((if today >? 0
                         then commit_loop (Z.to_nat today) 1 cur
                         else ret true) st1)) nr nc /\
        (nc <= nr <= nc + 1)%nat /\
        (fst ((if today >? 0
               then commit_loop (Z.to_nat today) 1 cur
               else ret true) st1) = true ->
         nr = nc /\
         (if today >? 0 then total + today else total) = total + Z.of_nat nc)).
      { destruct (today >? 0) eqn:Et.
        - destruct (commit_loop_counts cur (Z.to_nat today) 1 st1)
            as (nr & nc & Hg & Hb & Hok).
          exists nr, nc. split; [exact Hg |]. split; [exact Hb |].
          intro Ht. destruct (Hok Ht) as (-> & ->). lia.
        - exists 0%nat, 0%nat. split; [apply grown_refl |]. cbn. lia. }
      destruct Hin as (nr1 & nc1 & Hg1 & Hb1 & Hok1).
      destruct ((if today >? 0
                 then commit_loop (Z.to_nat today) 1 cur
                 else ret true) st1) as [ok st2].
      cbn [fst snd] in Hg1, Hok1.
      destruct ok; cbn [negb] in H.
      * destruct (Hok1 eq_refl) as (-> & Htot).
        destruct (increment_date cur) as [next |].
        -- destruct (IH _ _ _ _ _ _ _ H) as (nr2 & nc2 & Hg2 & Hb2 & Hok2).
           exists (0 + (nc1 + nr2))%nat, (0 + (nc1 + nc2))%nat.
           split.
           { apply (grown_trans st st1); [exact H01 |].
             now apply (grown_trans st1 st2). }
           split; [lia |].
           intros run Hrun H0. destruct (Hok2 run Hrun H0) as (-> & Ht).
           split; [reflexivity |]. rewrite Ht, Htot. lia.
        -- injection H as <- <-.
           exists (0 + nc1)%nat, (0 + nc1)%nat.
           split; [now apply (grown_trans st st1) |]. split; [lia |].
           discriminate.
      * injection H as <- <-.
        exists (0 + nr1)%nat, (0 + nc1)%nat.
        split; [now apply (grown_trans st st1) |]. split; [lia |].
        intros run Hrun H0. injection Hrun as <-. discriminate H0.
    + injection H as <- <-.
      exists 0%nat, 0%nat. split; [apply grown_refl |]. split; [lia |].
      intros run Hrun _. injection Hrun as <-. cbn. lia.
Qed.

Lemma init_git_repo_counts (st : State) : grown st (snd (init_git_repo st)) 0 0.
Proof.
  unfold init_git_repo, bind, stat_git_missing, system, external, ret, grown,
    records, commits, created.
  cbn. destruct (st_git_dir st); cbn; [lia |].
  destruct (st_oracle st (st_calls st)); cbn; lia.
Qed.

(** X17. Records and commits keep step.  In any run of [main] the
    activity file grows by [nr] records and [nc] commits are created with
    [nc <= nr <= nc + 1]: at most one record has no commit (the one whose
    staging or commit failed).  When the run exits with code 0 the two
    numbers are equal, and equal to [total_commits]. *)
Theorem main_records_match_commits (fuel : nat) (argv : list string)
    (st : State) :
  exists nr nc,
    grown st (snd (main fuel argv st)) nr nc /\
    (nc <= nr <= nc + 1)%nat /\
    (forall run,
       fst (main fuel argv st) = Done run -> exit_code run = 0 ->
       nr = nc /\ total_commits run = Z.of_nat nc).
Proof.
  assert (Hearly : exists nr nc,
            grown st (snd (exit_early st)) nr nc /\
            (nc <= nr <= nc + 1)%nat /\
            (forall run,
               fst (exit_early st) = Done run -> exit_code run = 0 ->
               nr = nc /\ total_commits run = Z.of_nat nc)).
  { exists 0%nat, 0%nat. split; [apply grown_refl |]. split; [lia |].
    cbn. intros run Hrun H0. injection Hrun as <-. discriminate H0. }
  unfold main.
  destruct argv as [| a0 [| a1 [| a2 [| a3 [| ? ?]]]]]; try exact Hearly.
  destruct (parse_date a1) as [s |]; [| exact Hearly].
  destruct (parse_date a2) as [e |]; [| exact Hearly].
  destruct ((atoi a3 <? 1) || (atoi a3 >? 50)); [exact Hearly |].
  destruct (compare_dates s e >? 0); [exact Hearly |].
  unfold bind.
  pose proof (init_git_repo_counts st) as Hinit.
  destruct (init_git_repo st) as [ok st1]. cbn [snd] in Hinit.
  destruct ok; cbn [negb].
  - destruct (day_loop fuel e (atoi a3) s 0 0 [] st1) as [out st'] eqn:Eloop.
    cbn [fst snd].
    destruct (day_loop_counts e (atoi a3) fuel s 0 0 [] st1 out st' Eloop)
      as (nr & nc & Hg & Hb & Hok).
    exists (0 + nr)%nat, (0 + nc)%nat.
    split; [now apply (grown_trans st st1) |]. split; [lia |].
    intros run Hrun H0. destruct (Hok run Hrun H0) as (-> & Ht).
    split; [reflexivity |]. rewrite Ht. lia.
  - exists 0%nat, 0%nat. split; [exact Hinit |]. split; [lia |].
    cbn. intros run Hrun H0. injection Hrun as <-. discriminate H0.
Qed.

(** A run in which every [git add] fails leaves one record and no
    commit; a run in which every call succeeds leaves as many records as
    commits. *)
Example main_failed_add :
  let st' := snd (main 10 ["cyclops"; "2024-01-01"; "2024-01-03"; "1"]%string
                    (mkState (rng_const 1) true (fun k => Nat.eqb k 0) 0 [] []))
  in records st' = 1%nat /\ commits st' = 0%nat.
Proof.
  split; reflexivity.
Qed.

Example main_calm_run :
  let st' := snd (main 10 ["cyclops"; "2024-01-01"; "2024-01-03"; "1"]%string
                    (calm_world 1))
  in records st' = 3%nat /\ commits st' = 3%nat.
Proof.
  split; reflexivity.
Qed.

(** *** What is logged during a run *)

Section Since.

Variable Pc : Command * bool -> Prop.
Variable Pf : ActivityLogEntry -> Prop.
Variable cmds0 : list (Command * bool).
Variable file0 : list ActivityLogEntry.

Let Inv := since Pc Pf cmds0 file0.

Lemma rand_since : hoare Inv rand (fun _ st => Inv st).
Proof.
  intros st H. exact H.
Qed.

Lemma external_since : hoare Inv external (fun _ st => Inv st).
Proof.
  intros st H. exact H.
Qed.

Lemma stat_since : hoare Inv stat_git_missing (fun _ st => Inv st).
Proof.
  intros st H. exact H.
Qed.

Lemma system_since (cmd : Command) :
  (forall ok, Pc (cmd, ok)) -> hoare Inv (system cmd) (fun _ st => Inv st).
Proof.
  intros Hcmd st ((newc & Hc & Hnew) & Hf). unfold system; cbn.
  split; [| exact Hf].
  exists ((cmd, st_oracle st (st_calls st)) :: newc). split.
  - rewrite Hc. reflexivity.
  - constructor; [apply Hcmd | exact Hnew].
Qed.

Lemma append_entry_since (en : ActivityLogEntry) :
  Pf en -> hoare Inv (append_entry en) (fun _ st => Inv st).
Proof.
  intros Hen st (Hc & (newf & Hf & Hnew)). unfold append_entry; cbn.
  split; [exact Hc |].
  exists (en :: newf). split.
  - rewrite Hf. reflexivity.
  - constructor; assumption.
Qed.

Lemma generate_commit_message_since (max_length : Z) :
  hoare Inv (generate_commit_message max_length) (fun _ st => Inv st).
Proof.
  unfold generate_commit_message.
  eapply hoare_bind; [apply rand_since |].
  intro r. apply hoare_ret. intros st H. exact H.
Qed.

Lemma create_commit_since (date : Date) (n : Z) :
  (forall file ok, Pc (GitAdd file, ok)) ->
  (forall h m msg ok, Pc (GitCommit date h m msg, ok)) ->
  (forall session changes, Pf (mkEntry date n session changes)) ->
  hoare Inv (create_commit date n) (fun _ st => Inv st).
Proof.
  intros Hadd Hcommit Hentry. unfold create_commit.
  eapply hoare_bind; [apply external_since |].
  intros [|]; cbn [negb]; [| apply hoare_ret; auto].
  eapply hoare_bind; [apply rand_since |]. intro r1.
  eapply hoare_bind; [apply rand_since |]. intro r2.
  eapply hoare_bind; [apply append_entry_since, Hentry |]. intros ?.
  eapply hoare_bind; [apply system_since, Hadd |].
  intros [|]; cbn [negb]; [| apply hoare_ret; auto].
  eapply hoare_bind; [apply generate_commit_message_since |].
  intro message.
  eapply hoare_bind; [apply rand_since |]. intro r3.
  eapply hoare_bind; [apply rand_since |]. intro r4.
  eapply hoare_bind; [apply system_since, Hcommit |].
  intros [|]; apply hoare_ret; auto.
Qed.

Lemma commit_loop_since (date : Date) (k : nat) :
  (forall file ok, Pc (GitAdd file, ok)) ->
  (forall h m msg ok, Pc (GitCommit date h m msg, ok)) ->
  (forall n session changes, Pf (mkEntry date n session changes)) ->
  forall i, hoare Inv (commit_loop k i date) (fun _ st => Inv st).
Proof.
  intros Hadd Hcommit Hentry.
  induction k as [| k IH]; intro i; cbn [commit_loop].
  - apply hoare_ret. auto.
  - eapply hoare_bind; [apply create_commit_since; auto |].
    intros [|]; cbn [negb]; [apply IH | apply hoare_ret; auto].
Qed.

Lemma init_git_repo_since :
  (forall ok, Pc (GitInit, ok)) -> (forall ok, Pc (GitConfigName, ok)) ->
  (forall ok, Pc (GitConfigEmail, ok)) ->
  hoare Inv init_git_repo (fun _ st => Inv st).
Proof.
  intros Hinit Hname Hemail. unfold init_git_repo.
  eapply hoare_bind; [apply stat_since |].
  intros [|]; [| apply hoare_ret; auto].
  eapply hoare_bind; [apply system_since, Hinit |].
  intros [|]; cbn [negb]; [| apply hoare_ret; auto].
  eapply hoare_bind; [apply system_since, Hname |]. intros ?.
  eapply hoare_bind; [apply system_since, Hemail |]. intros ?.
  apply hoare_ret. auto.
Qed.

End Since.

Lemma since_start (Pc : Command * bool -> Prop) (Pf : ActivityLogEntry -> Prop)
      (st : State) :
  since Pc Pf (st_commands st) (st_file st) st.
Proof.
  split; exists []; split; auto.
Qed.

Lemma increment_date_after (s cur next : Date) :
  lex_le s cur -> increment_date cur = Some next -> lex_le s next.
Proof.
  intros Hs Hi.
  assert (Hm : 1 <= month cur <= 12).
  { unfold increment_date in Hi.
    destruct (days_in_month (month cur) (year cur)) as [dim |] eqn:E;
      [| discriminate].
    now apply days_in_month_defined in E. }
  pose proof (increment_date_lt cur next Hm Hi).
  unfold lex_le, lex_lt in *. lia.
Qed.

Lemma day_loop_dates (s e : Date) (max : Z) (cmds0 : list (Command * bool))
      (file0 : list ActivityLogEntry) (fuel : nat) :
  forall cur total days seen,
    lex_le s cur ->
    hoare (since (command_date_in s e) (entry_date_in s e) cmds0 file0)
          (day_loop fuel e max cur total days seen)
          (fun _ st =>
             since (command_date_in s e) (entry_date_in s e) cmds0 file0 st).
Proof.
  induction fuel as [| fuel IH]; intros cur total days seen Hs;
    cbn [day_loop].
  - apply hoare_ret. auto.
  - destruct (compare_dates cur e <=? 0) eqn:Ecmp; [| apply hoare_ret; auto].
    apply Z.leb_le in Ecmp.
    assert (Hscur : compare_dates s cur <= 0) by now apply compare_dates_le.
    eapply hoare_bind; [apply rand_since |]. intro r.
    apply hoare_bind
      with (R := fun _ st =>
                   since (command_date_in s e) (entry_date_in s e)
                         cmds0 file0 st).
    { apply hoare_if; intros ?; [| apply hoare_ret; auto].
      apply commit_loop_since.
      - intros file ok. exact I.
      - intros h m msg ok. split; assumption.
      - intros n session changes. split; assumption. }
    intros [|]; cbn [negb]; [| apply hoare_ret; auto].
    destruct (increment_date cur) as [next |] eqn:Ei; [| apply hoare_ret; auto].
    apply IH. now apply (increment_date_after s cur).
Qed.

(** X18. A run never leaves the requested range: every [git commit]
    command that [main] issues and every record it appends to the
    activity file carries a date between the start date and the end date
    (inclusive, in the order of [compare_dates]); the logs only grow. *)
Theorem main_dates_in_range (fuel : nat) (prog arg1 arg2 arg3 : string)
    (s e : Date) (st : State)
    (Hstart : parse_date arg1 = Some s) (Hend : parse_date arg2 = Some e) :
  exists newc newf,
    added st (snd (main fuel [prog; arg1; arg2; arg3] st)) newc newf /\
    Forall (command_date_in s e) newc /\ Forall (entry_date_in s e) newf.
Proof.
  assert (Hh : hoare (since (command_date_in s e) (entry_date_in s e)
                        (st_commands st) (st_file st))
                     (main fuel [prog; arg1; arg2; arg3])
                     (fun _ st' =>
                        since (command_date_in s e) (entry_date_in s e)
                              (st_commands st) (st_file st) st')).
  { unfold main, exit_early. rewrite Hstart, Hend.
    destruct ((atoi arg3 <? 1) || (atoi arg3 >? 50)); [apply hoare_ret; auto |].
    destruct (compare_dates s e >? 0); [apply hoare_ret; auto |].
    eapply hoare_bind.
    { apply init_git_repo_since; intro ok; exact I. }
    intros [|]; cbn [negb]; [| apply hoare_ret; auto].
    apply day_loop_dates. unfold lex_le. lia. }
  pose proof (Hh st (since_start _ _ st)) as H.
  destruct H as ((newc & Hc & Hnewc) & (newf & Hf & Hnewf)).
  exists newc, newf. split; [split; assumption |]. split; assumption.
Qed.

Lemma main_dates_in_range_witness :
  exists newc newf,
    added (calm_world 1)
      (snd (main 10 ["cyclops"; "2024-01-01"; "2024-01-03"; "1"]%string
              (calm_world 1))) newc newf /\
    Forall (command_date_in (mkDate 2024 1 1) (mkDate 2024 1 3)) newc /\
    Forall (entry_date_in (mkDate 2024 1 1) (mkDate 2024 1 3)) newf.
Proof.
  apply (main_dates_in_range 10 "cyclops"%string "2024-01-01"%string
           "2024-01-03"%string "1"%string (mkDate 2024 1 1) (mkDate 2024 1 3)
           (calm_world 1)); reflexivity.
Defined.

(** *** Safety, usage errors, numbering *)

Lemma day_loop_defined (e : Date) (max : Z) (fuel : nat) :
  forall cur total days seen st out st',
    flat_date cur ->
    day_loop fuel e max cur total days seen st = (out, st') ->
    out <> Undefined /\
    (forall run, out = Done run -> exit_code run = 0 \/ exit_code run = 1).
Proof.
  induction fuel as [| fuel IH]; intros cur total days seen st out st' Hcur H;
    cbn [day_loop] in H.
  - injection H as <- <-. split; discriminate.
  - destruct (compare_dates cur e <=? 0).
    + unfold bind at 1 in H. cbn [rand] in H. unfold bind at 1 in H.
      match type of H with
      | (let (_, _) := ?c in _) = _ => destruct c as [ok st2]
      end.
      destruct ok; cbn [negb] in H.
      * destruct (increment_date_successor cur Hcur)
          as (next & Hi & _ & Hmn & Hdn).
        rewrite Hi in H.
        apply (IH _ _ _ _ _ _ _ (day_valid_flat next (conj Hmn Hdn)) H).
      * injection H as <- <-. split; [discriminate |].
        intros run Hrun. injection Hrun as <-. now right.
    + injection H as <- <-. split; [discriminate |].
      intros run Hrun. injection Hrun as <-. now left.
Qed.

(** X19. A run of [main] never reads outside the table of month lengths
    (the model never reaches [Undefined]), whatever the arguments, the
    generator and the outcomes of the external calls; and when it returns,
    the exit code is 0 or 1. *)
Theorem main_defined (fuel : nat) (argv : list string) (st : State) :
  fst (main fuel argv st) <> Undefined /\
  (forall run, fst (main fuel argv st) = Done run ->
               exit_code run = 0 \/ exit_code run = 1).
Proof.
  assert (Hearly : fst (exit_early st) <> Undefined /\
                   (forall run, fst (exit_early st) = Done run ->
                                exit_code run = 0 \/ exit_code run = 1)).
  { split; [discriminate |]. cbn. intros run Hrun. injection Hrun as <-.
    now right. }
  unfold main.
  destruct argv as [| a0 [| a1 [| a2 [| a3 [| ? ?]]]]]; try exact Hearly.
  destruct (parse_date a1) as [s |] eqn:E1; [| exact Hearly].
  destruct (parse_date a2) as [e |]; [| exact Hearly].
  destruct ((atoi a3 <? 1) || (atoi a3 >? 50)); [exact Hearly |].
  destruct (compare_dates s e >? 0); [exact Hearly |].
  unfold bind. destruct (init_git_repo st) as [ok st1].
  destruct ok; cbn [negb].
  - destruct (day_loop fuel e (atoi a3) s 0 0 [] st1) as [out st'] eqn:Eloop.
    cbn [fst].
    exact (day_loop_defined e (atoi a3) fuel s 0 0 [] st1 out st'
             (parse_date_flat _ _ E1) Eloop).
  - split; [discriminate |]. cbn. intros run Hrun. injection Hrun as <-.
    now right.
Qed.

(** X20. Usage errors.  With a number of arguments other than three
    (after the program name), and with a third argument that does not
    start with a number (which [atoi] reads as 0), [main] exits with
    code 1 before any effect. *)
Theorem main_usage_errors (fuel : nat) (st : State) :
  (forall argv, List.length argv <> 4%nat ->
     main fuel argv st = (Done (mkRun 1 0 0 []), st)) /\
  (forall prog arg1 arg2 arg3, scan_int arg3 = None ->
     main fuel [prog; arg1; arg2; arg3] st = (Done (mkRun 1 0 0 []), st)).
Proof.
  split.
  - intros argv Hlen.
    destruct argv as [| a0 [| a1 [| a2 [| a3 [| ? ?]]]]]; try reflexivity.
    cbn in Hlen. congruence.
  - intros prog arg1 arg2 arg3 Hscan.
    apply main_invalid_arguments. right; right; left.
    unfold atoi. rewrite Hscan. lia.
Qed.

Lemma main_usage_errors_witness :
  main 0 ["cyclops"; "2024-01-01"]%string (calm_world 1) =
    (Done (mkRun 1 0 0 []), calm_world 1) /\
  main 0 ["cyclops"; "2024-01-01"; "2024-01-03"; "five"]%string (calm_world 1) =
    (Done (mkRun 1 0 0 []), calm_world 1).
Proof.
  split.
  - apply (proj1 (main_usage_errors 0 (calm_world 1))). cbn. discriminate.
  - apply (proj2 (main_usage_errors 0 (calm_world 1))). reflexivity.
Defined.

(** X21. When the repository is missing and [git init] fails, [main]
    exits with code 1 although its arguments are valid: no day is
    processed, nothing is written to the activity file, and [git init] is
    the only command run. *)
Theorem main_init_failure (fuel : nat) (prog arg1 arg2 arg3 : string)
    (s e : Date) (st : State)
    (Hstart : parse_date arg1 = Some s) (Hend : parse_date arg2 = Some e)
    (Hrange : compare_dates s e <= 0) (Hmax : 1 <= atoi arg3 <= 50)
    (Hmissing : st_git_dir st = false)
    (Hfail : st_oracle st (st_calls st) = false) :
  fst (main fuel [prog; arg1; arg2; arg3] st) = Done (mkRun 1 0 0 []) /\
  st_file (snd (main fuel [prog; arg1; arg2; arg3] st)) = st_file st /\
  st_commands (snd (main fuel [prog; arg1; arg2; arg3] st)) =
  (GitInit, false) :: st_commands st.
Proof.
  rewrite (main_valid_arguments fuel prog arg1 arg2 arg3 s e st
             Hstart Hend Hmax Hrange).
  unfold bind, init_git_repo, bind, stat_git_missing, system, external, ret.
  rewrite Hmissing. cbn. rewrite Hfail. cbn. repeat split; reflexivity.
Qed.

Lemma main_init_failure_witness :
  fst (main 10 ["cyclops"; "2024-01-01"; "2024-01-03"; "1"]%string
         (mkState (rng_const 1) false (fun _ => false) 0 [] [])) =
  Done (mkRun 1 0 0 []) /\
  st_file (snd (main 10 ["cyclops"; "2024-01-01"; "2024-01-03"; "1"]%string
         (mkState (rng_const 1) false (fun _ => false) 0 [] []))) = [] /\
  st_commands (snd (main 10 ["cyclops"; "2024-01-01"; "2024-01-03"; "1"]%string
         (mkState (rng_const 1) false (fun _ => false) 0 [] []))) =
  [(GitInit, false)].
Proof.
  apply (main_init_failure 10 "cyclops"%string "2024-01-01"%string
           "2024-01-03"%string "1"%string (mkDate 2024 1 1) (mkDate 2024 1 3)
           (mkState (rng_const 1) false (fun _ => false) 0 [] []));
    try reflexivity.
  - cbn. lia.
  - change (atoi "1"%string) with 1. lia.
Defined.

Lemma Zseq_cons (start : Z) (len : nat) :
  Zseq start (S len) = start :: Zseq (start + 1) len.
Proof.
  unfold Zseq. cbn [seq map]. f_equal; [lia |].
  rewrite <- seq_shift, map_map. apply map_ext. intro k. lia.
Qed.

Lemma create_commit_true_entry (date : Date) (n : Z) (st : State) :
  fst (create_commit date n st) = true ->
  exists en, st_file (snd (create_commit date n st)) = en :: st_file st /\
             log_date en = date /\ log_number en = n.
Proof.
  rewrite create_commit_run.
  destruct (st_oracle st (st_calls st)); [| discriminate].
  destruct (st_oracle st (S (st_calls st))); [| discriminate].
  intros _. eexists. repeat split; reflexivity.
Qed.

Lemma commit_loop_numbers (date : Date) (k : nat) :
  forall i st,
    fst (commit_loop k i date st) = true ->
    exists newf,
      st_file (snd (commit_loop k i date st)) = newf ++ st_file st /\
      map log_number newf = rev (Zseq i k) /\
      Forall (fun en => log_date en = date) newf.
Proof.
  induction k as [| k IH]; intros i st H; cbn [commit_loop] in *.
  - exists []. repeat split; constructor.
  - unfold bind in *.
    pose proof (create_commit_true_entry date i st) as Hen.
    destruct (create_commit date i st) as [ok st1]. cbn [fst snd] in Hen.
    destruct ok; cbn [negb] in *; [| discriminate H].
    destruct (Hen eq_refl) as (en & Hfile & Hdate & Hnum).
    destruct (IH (i + 1) st1 H) as (newf & Hf & Hnums & Hdates).
    exists (newf ++ [en]). split; [| split].
    + rewrite Hf, Hfile, <- app_assoc. reflexivity.
    + rewrite map_app, Hnums, Zseq_cons. cbn [map rev]. now rewrite Hnum.
    + apply Forall_app. split; [exact Hdates |]. constructor; auto.
Qed.

(** X22. The commits of a day are numbered from 1: when the inner loop of
    [main] has created [k] commits for a date, it has appended [k]
    records to the activity file, all of that date, numbered
    1, 2, ..., [k] in the order they were written (the file is listed
    newest first). *)
Theorem commit_loop_records (date : Date) (k : nat) (st : State)
    (H : fst (commit_loop k 1 date st) = true) :
  exists newf,
    st_file (snd (commit_loop k 1 date st)) = newf ++ st_file st /\
    map log_number (rev newf) = Zseq 1 k /\
    Forall (fun en => log_date en = date) newf.
Proof.
  destruct (commit_loop_numbers date k 1 st H) as (newf & Hf & Hn & Hd).
  exists newf. split; [exact Hf |]. split; [| exact Hd].
  rewrite map_rev, Hn. apply rev_involutive.
Qed.

Lemma commit_loop_records_witness :
  exists newf,
    st_file (snd (commit_loop 3 1 (mkDate 2024 2 29) (calm_world 1))) =
    newf ++ st_file (calm_world 1) /\
    map log_number (rev newf) = Zseq 1 3 /\
    Forall (fun en => log_date en = mkDate 2024 2 29) newf.
Proof.
  apply (commit_loop_records (mkDate 2024 2 29) 3 (calm_world 1)).
  reflexivity.
Defined.

End MainMore.
